(** * youtube-export: the S3 inventory, archive upload and legacy migration
    of [s3.py], embedded in Rocq.

    Object names are Python 2 strings, modelled as [string]; dictionaries
    and sets are stdpp's [gmap] and [gset]; timestamps are integers counting
    microseconds (the resolution of [datetime]); the calls that reach the
    storage services thread an explicit [world]. *)

From Stdlib Require Import ZArith Ascii String.
From stdpp Require Import gmap strings list fin_maps.

(** ** Strings *)

Module Str.

(** [s.startswith(p)] *)
Fixpoint startswith (p s : string) : bool :=
  match p, s with
  | EmptyString, _ => true
  | String a p', String b s' => if Ascii.eqb a b then startswith p' s' else false
  | String _ _, EmptyString => false
  end.

(** [s[n:]] *)
Fixpoint drop (n : nat) (s : string) : string :=
  match n, s with
  | O, _ => s
  | S n', String _ s' => drop n' s'
  | S _, EmptyString => EmptyString
  end.

(** [c in s] for a one-character [c] *)
Fixpoint contains (c : ascii) (s : string) : bool :=
  match s with
  | EmptyString => false
  | String a s' => if Ascii.eqb c a then true else contains c s'
  end.

(** every character of [s] satisfies [p] *)
Fixpoint all (p : ascii -> bool) (s : string) : bool :=
  match s with
  | EmptyString => true
  | String a s' => p a && all p s'
  end.

(** the longest prefix of [s] made of characters in [p] *)
Fixpoint take_while (p : ascii -> bool) (s : string) : string :=
  match s with
  | EmptyString => EmptyString
  | String a s' => if p a then String a (take_while p s') else EmptyString
  end.

Fixpoint drop_while (p : ascii -> bool) (s : string) : string :=
  match s with
  | EmptyString => EmptyString
  | String a s' => if p a then drop_while p s' else s
  end.

End Str.

(** ** Regular expressions

    The two patterns of the module use literals, greedy repetitions of a
    character class, capture groups, concatenation and [$].  [run] is a
    backtracking matcher in continuation-passing style: a repetition first
    tries to consume one more character and falls back to the continuation
    only when the longer attempt fails, which is the order in which Python's
    [re] explores a greedy quantifier.  The continuation receives the text
    matched so far, the rest of the input and the groups closed so far. *)

Module Re.

Inductive regex : Type :=
| Lit (c : ascii)
| Plus (cls : ascii -> bool)
| Star (cls : ascii -> bool)
| Group (r : regex)
| Seq (r1 r2 : regex)
| Eol.

(** [\w] without [re.UNICODE] or [re.LOCALE]: [[a-zA-Z0-9_]] *)
Definition is_word (c : ascii) : bool :=
  let n := nat_of_ascii c in
  (((97 <=? n) && (n <=? 122)) || ((65 <=? n) && (n <=? 90))
   || ((48 <=? n) && (n <=? 57)) || (n =? 95))%nat.

(** [[\w-]] *)
Definition is_word_or_dash (c : ascii) : bool :=
  is_word c || (nat_of_ascii c =? 45)%nat.

Definition newline : ascii := "010"%char.

(** [.] without [re.DOTALL]: anything but a newline *)
Definition is_dot (c : ascii) : bool := negb (Ascii.eqb c newline).

(** [$] without [re.MULTILINE]: at the end of the string, or just before a
    newline that ends the string *)
Definition at_eol (s : string) : bool :=
  match s with
  | EmptyString => true
  | String c EmptyString => Ascii.eqb c newline
  | _ => false
  end.

Section Matcher.
Context {R : Type}.

Fixpoint star (cls : ascii -> bool) (s : string)
    (k : string -> string -> option R) : option R :=
  match s with
  | String c s' =>
      if cls c then
        match star cls s' (fun m rest => k (String c m) rest) with
        | Some r => Some r
        | None => k EmptyString s
        end
      else k EmptyString s
  | EmptyString => k EmptyString s
  end.

Fixpoint run (r : regex) (s : string) (groups : list string)
    (k : string -> string -> list string -> option R) : option R :=
  match r with
  | Lit c =>
      match s with
      | String c' s' =>
          if Ascii.eqb c c' then k (String c EmptyString) s' groups else None
      | EmptyString => None
      end
  | Plus cls =>
      match s with
      | String c s' =>
          if cls c then star cls s' (fun m rest => k (String c m) rest groups)
          else None
      | EmptyString => None
      end
  | Star cls => star cls s (fun m rest => k m rest groups)
  | Group r1 => run r1 s groups (fun m rest gs => k m rest (gs ++ [m]))
  | Seq r1 r2 =>
      run r1 s groups (fun m1 rest1 gs1 =>
        run r2 rest1 gs1 (fun m2 rest2 gs2 => k (m1 +:+ m2) rest2 gs2))
  | Eol => if at_eol s then k EmptyString s groups else None
  end.
End Matcher.

(** A match object: [group()] and the numbered groups. *)
Record match_object := MatchObject {
  group0 : string;
  groups : list string
}.

(** [m.group(i)] for [i >= 1]; both patterns have two groups, and every use
    in the module asks for group 1 or 2 *)
Definition group (m : match_object) (i : nat) : string :=
  nth (i - 1) (groups m) EmptyString.

(** [pattern.match(s)]: the pattern is tried at the start of [s] only and
    need not reach its end *)
Definition re_match (r : regex) (s : string) : option match_object :=
  run r s [] (fun m _ gs => Some (MatchObject m gs)).

End Re.

Import Re.

(** Current keys, YOUTUBE_ID.FORMAT/ : group 1 is one or more of [[\w-]],
    then a dot, group 2 is one or more of [\w], then a slash. *)
Definition re_video_key_name : regex :=
  Seq (Group (Plus is_word_or_dash))
      (Seq (Lit ".") (Seq (Group (Plus is_word)) (Lit "/"))).

(** Older keys, YOUTUBE_ID/ : group 1 is one or more of [[\w-]], then a
    slash, group 2 is any run of [.], then [$]. *)
Definition re_legacy_video_key_name : regex :=
  Seq (Group (Plus is_word_or_dash))
      (Seq (Lit "/") (Seq (Group (Star is_dot)) Eol)).

(** ** Time

    A [datetime] is a count of microseconds, the resolution that the format
    [%Y-%m-%dT%H:%M:%S.%fZ] parses; a [timedelta] is a difference of two. *)

Definition datetime := Z.
Definition timedelta := Z.

Definition timedelta_seconds (s : Z) : timedelta := (s * 1000000)%Z.
Definition timedelta_hours (h : Z) : timedelta := timedelta_seconds (h * 3600).

(** ** Storage objects, logging and the world *)

(** A key of a bucket listing.  [last_modified] is the value that
    [datetime.strptime] reads from the listing's timestamp; [acl] stands
    for the access-control list stored with the object. *)
Record s3key := S3Key {
  name : string;
  last_modified : datetime;
  acl : string
}.

Inductive exn : Type :=
| AssertionError
| AttributeError
| GaveUp          (* Exception: Gave up publish attempt due to server errors *)
| Uncaught.       (* an error of a collaborator that the module does not catch *)

(** How a block of statements ends: it runs to its end, it executes
    [return], or it raises. *)
Inductive outcome (A : Type) : Type :=
| Normal (a : A)
| Return (b : bool)
| Raise (e : exn).
Arguments Normal {A} a.
Arguments Return {A} b.
Arguments Raise {A} e.

Inductive level : Type := Debug | Info | Warning | Error.

(** One constructor per call of [logger] in the module. *)
Inductive message : Type :=
| MsgUnrecognizedKey (key : string)
| MsgLegacyIgnored (count : nat)
| MsgCopyingLegacy (src dest : string)
| MsgUnrecognizedFile (key : string)
| MsgStillUploading (format youtube_id : string) (modification_date : datetime)
| MsgFormatNotFound (format youtube_id : string)
| MsgCopyingFile (destination_name : string)
| MsgUploadError (status : nat) (reason : string) (attempt : nat)
| MsgWaiting
| MsgVerified (youtube_id destination_name : string)
| MsgUnableToVerify (youtube_id destination_name : string)
| MsgVerifyRetry (c_retries : nat)
| MsgVerifyFinal (code : nat).

(** What the module does to the outside, in the order it does it. *)
Inductive event : Type :=
| Log (lvl : level) (msg : message)
| ListKeys (prefix : string)
| CopyKey (src dest_bucket dest : string) (preserve_acl : bool)
| VideoMetadata (youtube_id : string)
| GetFile (key : string)
| PutFile (bucket dest : string)
| Sleep (seconds : Z)
| HeadRequest (url : string).

(** The answer of archive.org to one [set_contents_from_file]. *)
Inductive put_answer : Type :=
| PutOk
| PutServerError (status : nat) (reason : string)    (* BotoServerError *)
| PutFailure.                                        (* any other exception *)

(** The answer to one [urllib2.urlopen]. *)
Inductive head_answer : Type :=
| HeadResponse (code : nat)
| HeadHTTPError (code : nat)                         (* urllib2.HTTPError *)
| HeadFailure.                                       (* any other exception *)

(** The state outside the interpreter.  The two buckets are stores; the
    answers of the services are scripts indexed by the number of calls made
    so far; the clock moves when the module sleeps. *)
Record world := World {
  converted : list s3key;
  archive : list (string * string);
  utcnow : datetime;
  put_script : nat -> put_answer;
  puts_made : nat;
  head_script : nat -> head_answer;
  heads_made : nat;
  get_file_ok : string -> bool;
  video_metadata_ok : string -> bool;
  trace : list event
}.

Definition converted_bucket_name : string := "KA-youtube-converted".
Definition default_acl : string := "private".

Definition emit (e : event) (w : world) : world :=
  World (converted w) (archive w) (utcnow w) (put_script w) (puts_made w)
        (head_script w) (heads_made w) (get_file_ok w) (video_metadata_ok w)
        (trace w ++ [e]).

Definition set_converted (b : list s3key) (w : world) : world :=
  World b (archive w) (utcnow w) (put_script w) (puts_made w)
        (head_script w) (heads_made w) (get_file_ok w) (video_metadata_ok w)
        (trace w).

Definition set_archive (a : list (string * string)) (w : world) : world :=
  World (converted w) a (utcnow w) (put_script w) (puts_made w)
        (head_script w) (heads_made w) (get_file_ok w) (video_metadata_ok w)
        (trace w).

Definition set_utcnow (t : datetime) (w : world) : world :=
  World (converted w) (archive w) t (put_script w) (puts_made w)
        (head_script w) (heads_made w) (get_file_ok w) (video_metadata_ok w)
        (trace w).

Definition set_puts_made (n : nat) (w : world) : world :=
  World (converted w) (archive w) (utcnow w) (put_script w) n
        (head_script w) (heads_made w) (get_file_ok w) (video_metadata_ok w)
        (trace w).

Definition set_heads_made (n : nat) (w : world) : world :=
  World (converted w) (archive w) (utcnow w) (put_script w) (puts_made w)
        (head_script w) n (get_file_ok w) (video_metadata_ok w)
        (trace w).

(** ** The monad of the stateful functions *)

Definition M (A : Type) : Type := world -> outcome A * world.

Definition ret {A} (a : A) : M A := fun w => (Normal a, w).
Definition return_ {A} (b : bool) : M A := fun w => (Return b, w).
Definition raise {A} (e : exn) : M A := fun w => (Raise e, w).

Definition bind {A B} (m : M A) (k : A -> M B) : M B :=
  fun w =>
    match m w with
    | (Normal a, w') => k a w'
    | (Return b, w') => (Return b, w')
    | (Raise e, w') => (Raise e, w')
    end.

Notation "'let*' x ':=' m 'in' k" := (bind m (fun x => k))
  (at level 10, x name, m at level 100, k at level 200, only parsing).

(** [assert c] *)
Definition assert (c : bool) : M unit :=
  if c then ret tt else raise AssertionError.

Definition logger (lvl : level) (msg : message) : M unit :=
  fun w => (Normal tt, emit (Log lvl msg) w).

(** [time.sleep(seconds)] *)
Definition sleep (seconds : Z) : M unit :=
  fun w => (Normal tt,
            emit (Sleep seconds) (set_utcnow (utcnow w + timedelta_seconds seconds)%Z w)).

(** [converted_bucket.list(prefix)]: the keys whose name starts with
    [prefix], in the order of the store *)
Definition converted_bucket_list (prefix : string) : M (list s3key) :=
  fun w => (Normal (List.filter (fun k => Str.startswith prefix (name k)) (converted w)),
            emit (ListKeys prefix) w).

(** Storing an object under a name replaces the object of that name. *)
Definition store_key (k : s3key) (b : list s3key) : list s3key :=
  List.filter (fun k' => negb (String.eqb (name k') (name k))) b ++ [k].

(** [key.copy(converted_bucket.name, dest, preserve_acl)]: a server-side
    copy inside the converted bucket; the source stays where it is *)
Definition key_copy (key : s3key) (dest : string) (preserve_acl : bool) : M unit :=
  fun w =>
    let copy := S3Key dest (utcnow w) (if preserve_acl then acl key else default_acl) in
    (Normal tt,
     emit (CopyKey (name key) converted_bucket_name dest preserve_acl)
          (set_converted (store_key copy (converted w)) w)).

(** [api.video_metadata(youtube_id)] *)
Definition api_video_metadata (youtube_id : string) : M unit :=
  fun w =>
    let w' := emit (VideoMetadata youtube_id) w in
    if video_metadata_ok w youtube_id then (Normal tt, w') else (Raise Uncaught, w').

(** [key.get_file(t, cb=get_cb)] *)
Definition key_get_file (key : s3key) : M unit :=
  fun w =>
    let w' := emit (GetFile (name key)) w in
    if get_file_ok w (name key) then (Normal tt, w') else (Raise Uncaught, w').

(** [dest_key.set_contents_from_file(t, headers=headers, cb=send_cb)]: the
    next answer of the script; the object is stored when the answer is
    [PutOk] *)
Definition set_contents_from_file (bucket dest : string) : world -> put_answer * world :=
  fun w =>
    let answer := put_script w (puts_made w) in
    let w1 := emit (PutFile bucket dest) (set_puts_made (S (puts_made w)) w) in
    match answer with
    | PutOk => (answer, set_archive (archive w1 ++ [(bucket, dest)]) w1)
    | _ => (answer, w1)
    end.

(** [urllib2.urlopen(request)] with the method set to HEAD *)
Definition urlopen_head (url : string) : world -> head_answer * world :=
  fun w =>
    (head_script w (heads_made w),
     emit (HeadRequest url) (set_heads_made (S (heads_made w)) w)).

(** [datetime.utcnow()] *)
Definition datetime_utcnow : M datetime := fun w => (Normal (utcnow w), w).

(** ** Dictionaries with a default *)

(** [d[k]] on a [defaultdict]: a missing key is first bound to the default,
    and that default is the value read *)
Definition defaultdict_getitem {V} (default_factory : V)
    (d : gmap string V) (k : string) : V * gmap string V :=
  match d !! k with
  | Some v => (v, d)
  | None => (default_factory, <[k := default_factory]> d)
  end.

(** ** The inventory of the converted bucket

    The functions of the inventory read [converted_bucket.list(delimiter="/")];
    the names that this listing yields are their argument [listing]. *)

Definition list_converted_formats_step
    (st : gmap string (gset string) * gset string * list event)
    (key_name : string) : gmap string (gset string) * gset string * list event :=
  let '(converted_videos, legacy_video_keys, logs) := st in
  match re_match re_video_key_name key_name with
  | None =>
      match re_match re_legacy_video_key_name key_name with
      | Some _ => (converted_videos, legacy_video_keys ∪ {[key_name]}, logs)
      | None =>
          (converted_videos, legacy_video_keys,
           logs ++ [Log Warning (MsgUnrecognizedKey key_name)])
      end
  | Some video_match =>
      let '(formats, d) :=
        defaultdict_getitem ∅ converted_videos (group video_match 1) in
      (<[group video_match 1 := formats ∪ {[group video_match 2]}]> d,
       legacy_video_keys, logs)
  end.

(** Maps youtube ids to the set of available converted formats; the second
    component is what the function logs. *)
Definition list_converted_formats (listing : list string)
    : gmap string (gset string) * list event :=
  let '(converted_videos, legacy_video_keys, logs) :=
    fold_left list_converted_formats_step listing (∅, ∅, []) in
  (converted_videos, logs ++ [Log Info (MsgLegacyIgnored (size legacy_video_keys))]).

(** The youtube ids of the videos with legacy content. *)
Definition list_legacy_mp4_videos (listing : list string) : gset string :=
  fold_left
    (fun legacy_mp4_videos key_name =>
       match re_match re_legacy_video_key_name key_name with
       | Some legacy_match => legacy_mp4_videos ∪ {[group legacy_match 1]}
       | None => legacy_mp4_videos
       end)
    listing ∅.

(** A video of the library is a dictionary; a playlist carries its videos. *)
Record playlist := Playlist { videos : list (gmap string string) }.

Definition list_missing_step (DOWNLOADABLE_FORMATS : gset string)
    (st : gmap string (gset string) * gmap string (gset string))
    (video : gmap string string)
    : gmap string (gset string) * gmap string (gset string) :=
  let '(missing_converted_formats, converted_formats) := st in
  match video !! "youtube_id" with
  | None => st                                          (* continue *)
  | Some youtube_id =>
      let '(formats, converted_formats') :=
        defaultdict_getitem ∅ converted_formats youtube_id in
      (<[youtube_id := DOWNLOADABLE_FORMATS ∖ formats]> missing_converted_formats,
       converted_formats')
  end.

(** Maps youtube ids to the set of formats missing from the converted
    bucket.  [DOWNLOADABLE_FORMATS] is a constant of [util]; [library] is
    the answer of [api.get_library()]. *)
Definition list_missing_converted_formats (DOWNLOADABLE_FORMATS : gset string)
    (listing : list string) (library : list playlist)
    : gmap string (gset string) * list event :=
  let '(converted_formats, logs) := list_converted_formats listing in
  let '(missing_converted_formats, _) :=
    fold_left
      (fun st playlist => fold_left (list_missing_step DOWNLOADABLE_FORMATS) (videos playlist) st)
      library (∅, converted_formats) in
  (missing_converted_formats, logs).

(** ** Legacy migration *)

Fixpoint copy_legacy_keys (youtube_id : string) (keys : list s3key) : M unit :=
  match keys with
  | [] => ret tt
  | key :: rest =>
      match re_match re_legacy_video_key_name (name key) with
      | None => raise AssertionError
      | Some legacy_match =>
          let* _ := assert (String.eqb (group legacy_match 1) youtube_id) in
          let dest_key := youtube_id +:+ ".mp4/" +:+ group legacy_match 2 in
          let* _ := logger Info (MsgCopyingLegacy (name key) dest_key) in
          let* _ := key_copy key dest_key true in
          copy_legacy_keys youtube_id rest
      end
  end.

(** The copies land outside the prefix that is listed, so the listing does
    not depend on them and is read once. *)
Definition copy_legacy_content_to_new_location (youtube_id : string) : M unit :=
  let* keys := converted_bucket_list (youtube_id +:+ "/") in
  copy_legacy_keys youtube_id keys.

(** ** Verification of an upload *)

Definition c_retries_allowed : nat := 5.

(** The loop [while c_retries < c_retries_allowed]; [remaining] is
    [c_retries_allowed - c_retries], which every turn of the loop lowers by
    one, so that [remaining = 0] is the loop condition being false. *)
Fixpoint verify_while (remaining c_retries : nat) (url : string) : M unit :=
  match remaining with
  | O => return_ false
  | S remaining' =>
      fun w =>
        match urlopen_head url w with
        | (HeadResponse code, w1) => (Return (code =? 200)%nat, w1)
        | (HeadHTTPError code, w1) =>
            let c_retries := c_retries + 1 in
            (let* _ := logger Error (if (c_retries <? c_retries_allowed)%nat
                                then MsgVerifyRetry c_retries
                                else MsgVerifyFinal code) in
             let* _ := sleep 10 in
             verify_while remaining' c_retries url) w1
        | (HeadFailure, w1) => (Raise Uncaught, w1)
        end
  end.

Definition archive_url (youtube_id filename : string) : string :=
  "http://s3.us.archive.org/KA-converted-" +:+ youtube_id +:+ "/" +:+ filename.

Definition verify_archive_upload (youtube_id filename : string) : M unit :=
  verify_while c_retries_allowed 0 (archive_url youtube_id filename).

(** ** Upload to the archive *)

(** The test of line 142: the object was modified less than one hour ago. *)
Definition too_recent (now modification_date : datetime) : bool :=
  (now - modification_date <? timedelta_hours 1)%Z.

Definition is_ready (now modification_date : datetime) : bool :=
  negb (too_recent now modification_date).

(** [source_keys_for_format[format].append(key)] *)
Definition append_source_key (source_keys_for_format : gmap string (list s3key))
    (format : string) (key : s3key) : gmap string (list s3key) :=
  let '(keys, d) := defaultdict_getitem [] source_keys_for_format format in
  <[format := keys ++ [key]]> d.

(** Lines 131-147: the keys under the prefix, grouped by format. *)
Fixpoint gather_source_keys (youtube_id : string) (keys : list s3key)
    (source_keys_for_format : gmap string (list s3key))
    : M (gmap string (list s3key)) :=
  match keys with
  | [] => ret source_keys_for_format
  | key :: rest =>
      match re_match re_video_key_name (name key) with
      | None =>
          let* _ := (if re_match re_legacy_video_key_name (name key) is None
                then logger Info (MsgUnrecognizedFile (name key))
                else ret tt) in
          gather_source_keys youtube_id rest source_keys_for_format
      | Some video_match =>
          let* _ := assert (String.eqb (group video_match 1) youtube_id) in
          let format := group video_match 2 in
          let modification_date := last_modified key in
          let* now := datetime_utcnow in
          if too_recent now modification_date then
            let* _ := logger Error (MsgStillUploading format youtube_id modification_date) in
            return_ false
          else
            gather_source_keys youtube_id rest
              (append_source_key source_keys_for_format format key)
      end
  end.

(** Lines 149-152: every requested format has a source key. *)
Fixpoint check_requested_formats (youtube_id : string) (formats_to_upload : list string)
    (source_keys_for_format : gmap string (list s3key))
    : M (gmap string (list s3key)) :=
  match formats_to_upload with
  | [] => ret source_keys_for_format
  | format :: rest =>
      let '(keys, d) := defaultdict_getitem [] source_keys_for_format format in
      if (length keys =? 0)%nat then
        let* _ := logger Error (MsgFormatNotFound format youtube_id) in
        return_ false
      else check_requested_formats youtube_id rest d
  end.

(** Lines 194-201: [for attempt in xrange(10)] with its [else]. *)
Fixpoint put_attempts (attempts : list nat) (dest_bucket destination_name : string)
    : M unit :=
  match attempts with
  | [] => raise GaveUp
  | attempt :: rest =>
      fun w =>
        match set_contents_from_file dest_bucket destination_name w with
        | (PutOk, w1) => (Normal tt, w1)                               (* break *)
        | (PutServerError status reason, w1) =>
            (let* _ := logger Error (MsgUploadError status reason attempt) in
             put_attempts rest dest_bucket destination_name) w1
        | (PutFailure, w1) => (Raise Uncaught, w1)
        end
  end.

Definition upload_with_retries (dest_bucket destination_name : string) : M unit :=
  put_attempts (seq 0 10) dest_bucket destination_name.

(** Lines 165-204: one source key is fetched and put.  The progress bar
    and the metadata headers do not bear on the control flow and are left
    out; the temporary file is the object in flight. *)
Definition transfer_key (youtube_id format dest_bucket : string) (key : s3key)
    (uploaded_filenames : list string) : M (list string) :=
  match re_match re_video_key_name (name key) with
  | None => raise AttributeError
  | Some video_match =>
      let* _ := assert (String.eqb (group video_match 1) youtube_id) in
      let* _ := assert (String.eqb (group video_match 2) format) in
      let video_prefix := group0 video_match in
      let* _ := assert (Str.startswith video_prefix (name key)) in
      let destination_name := Str.drop (String.length video_prefix) (name key) in
      let* _ := assert (negb (Str.contains "/" destination_name)) in
      let* _ := logger Debug (MsgCopyingFile destination_name) in
      let* _ := key_get_file key in
      let* _ := upload_with_retries dest_bucket destination_name in
      ret (uploaded_filenames ++ [destination_name])
  end.

Fixpoint transfer_keys (youtube_id format dest_bucket : string) (keys : list s3key)
    (uploaded_filenames : list string) : M (list string) :=
  match keys with
  | [] => ret uploaded_filenames
  | key :: rest =>
      let* uploaded := transfer_key youtube_id format dest_bucket key uploaded_filenames in
      transfer_keys youtube_id format dest_bucket rest uploaded
  end.

(** Lines 163-204. *)
Fixpoint transfer_formats (youtube_id dest_bucket : string) (formats_to_upload : list string)
    (source_keys_for_format : gmap string (list s3key))
    (uploaded_filenames : list string) : M (list string) :=
  match formats_to_upload with
  | [] => ret uploaded_filenames
  | format :: rest =>
      let '(keys, d) := defaultdict_getitem [] source_keys_for_format format in
      let* uploaded := transfer_keys youtube_id format dest_bucket keys uploaded_filenames in
      transfer_formats youtube_id dest_bucket rest d uploaded
  end.

(** Lines 209-214: the uploads are verified in turn; the first one that does
    not verify ends the function. *)
Fixpoint verify_uploads (youtube_id : string) (uploaded_filenames : list string) : M unit :=
  match uploaded_filenames with
  | [] => ret tt
  | destination_name :: rest =>
      fun w =>
        match verify_archive_upload youtube_id destination_name w with
        | (Return true, w1) =>
            (let* _ := logger Error (MsgVerified youtube_id destination_name) in
             verify_uploads youtube_id rest) w1
        | (Return false, w1) | (Normal _, w1) =>
            (let* _ := logger Error (MsgUnableToVerify youtube_id destination_name) in
             return_ false) w1
        | (Raise e, w1) => (Raise e, w1)
        end
  end.

(** Lines 206-216: the wait, the verification and the verdict. *)
Definition await_and_verify (youtube_id : string) (uploaded_filenames : list string)
    : M unit :=
  let* _ := logger Debug MsgWaiting in
  let* _ := sleep 10 in
  let* _ := verify_uploads youtube_id uploaded_filenames in
  return_ true.

(** Lines 149-216: what the function does once the source keys are
    gathered. *)
Definition upload_after_discovery (youtube_id : string)
    (formats_to_upload : list string)
    (source_keys_for_format : gmap string (list s3key)) : M unit :=
  let dest_bucket := "KA-converted-" +:+ youtube_id in
  let* source_keys_for_format :=
    check_requested_formats youtube_id formats_to_upload source_keys_for_format in
  let* _ := api_video_metadata youtube_id in
  let* uploaded_filenames :=
    transfer_formats youtube_id dest_bucket formats_to_upload source_keys_for_format [] in
  await_and_verify youtube_id uploaded_filenames.

Definition upload_converted_to_archive (youtube_id : string)
    (formats_to_upload : list string) : M unit :=
  let* keys := converted_bucket_list youtube_id in
  let* source_keys_for_format := gather_source_keys youtube_id keys ∅ in
  upload_after_discovery youtube_id formats_to_upload source_keys_for_format.

(** The triple that lines 165-170 read off a current key: the two groups
    and the name without the matched prefix. *)
Definition classify_video_key (key_name : string) : option (string * string * string) :=
  match re_match re_video_key_name key_name with
  | None => None
  | Some video_match =>
      Some (group video_match 1, group video_match 2,
            Str.drop (String.length (group0 video_match)) key_name)
  end.

(** The key that the naming convention builds from a triple. *)
Definition video_key_name (youtube_id format path : string) : string :=
  youtube_id +:+ "." +:+ format +:+ "/" +:+ path.

(** A nonempty run of characters of a class: what a group [cls+] accepts. *)
Definition nonempty_all (cls : ascii -> bool) (s : string) : bool :=
  match s with
  | EmptyString => false
  | String _ _ => Str.all cls s
  end.

(** The test [re_video_key_name.match(name) is not None]. *)
Definition is_current_key (key_name : string) : bool :=
  match re_match re_video_key_name key_name with
  | Some _ => true
  | None => false
  end.

(** The test ["youtube_id" in video]. *)
Definition has_youtube_id (video : gmap string string) : bool :=
  match video !! "youtube_id" with
  | Some _ => true
  | None => false
  end.

(** The library without the videos that carry no [youtube_id]. *)
Definition youtube_videos_only (library : list playlist) : list playlist :=
  map (fun p => Playlist (List.filter has_youtube_id (videos p))) library.

(** ** Vocabulary of the statements *)

(** The next [n] answers of a script of which [made] were consumed. *)
Definition next_answers {A} (script : nat -> A) (made n : nat) : list A :=
  map (fun i => script (made + i)) (seq 0 n).

(** The world with more events in its trace and nothing else changed. *)
Definition extend (evs : list event) (w : world) : world :=
  World (converted w) (archive w) (utcnow w) (put_script w) (puts_made w)
        (head_script w) (heads_made w) (get_file_ok w) (video_metadata_ok w)
        (trace w ++ evs).

Definition is_log (e : event) : bool :=
  match e with Log _ _ => true | _ => false end.

Definition server_error (e : nat * string) : put_answer :=
  PutServerError (fst e) (snd e).

(** What [put_attempts] leaves in the trace for failed attempts numbered
    from [attempt]. *)
Fixpoint failed_put_events (bucket dest : string) (attempt : nat)
    (errors : list (nat * string)) : list event :=
  match errors with
  | [] => []
  | (status, reason) :: rest =>
      PutFile bucket dest :: Log Error (MsgUploadError status reason attempt)
      :: failed_put_events bucket dest (S attempt) rest
  end.

(** What [verify_while] leaves in the trace for attempts answered by an
    HTTP error, [c_retries] of them having been counted before. *)
Fixpoint failed_head_events (url : string) (c_retries : nat) (codes : list nat)
    : list event :=
  match codes with
  | [] => []
  | code :: rest =>
      HeadRequest url
      :: Log Error (if (c_retries + 1 <? c_retries_allowed)%nat
                    then MsgVerifyRetry (c_retries + 1)
                    else MsgVerifyFinal code)
      :: Sleep 10
      :: failed_head_events url (c_retries + 1) rest
  end.

(** The world when the verification starts: the wait was logged and slept. *)
Definition propagation_delay (w : world) : world :=
  extend [Log Debug MsgWaiting; Sleep 10]
         (set_utcnow (utcnow w + timedelta_seconds 10)%Z w).

(** [verified_in_turn youtube_id names w w']: from [w], each of [names] is
    verified once, in order, each verification returns True and is logged,
    and the world is then [w']. *)
Inductive verified_in_turn (youtube_id : string) : list string -> world -> world -> Prop :=
| verified_nil (w : world) : verified_in_turn youtube_id [] w w
| verified_cons (destination_name : string) (names : list string) (w w1 w2 : world) :
    verify_archive_upload youtube_id destination_name w = (Return true, w1) ->
    verified_in_turn youtube_id names
      (emit (Log Error (MsgVerified youtube_id destination_name)) w1) w2 ->
    verified_in_turn youtube_id (destination_name :: names) w w2.

(** The number of HEAD requests for [url] in a trace. *)
Definition head_requests (url : string) (t : list event) : nat :=
  length (List.filter (fun e => match e with
                                | HeadRequest u => String.eqb u url
                                | _ => false
                                end) t).

(** A key passes the loop of lines 131-147 when the current pattern does
    not match it, or when it carries the id and is ready. *)
Definition passes_gate (youtube_id : string) (now : datetime) (key : s3key) : bool :=
  match re_match re_video_key_name (name key) with
  | None => true
  | Some video_match =>
      String.eqb (group video_match 1) youtube_id && is_ready now (last_modified key)
  end.


(** The two assertions of the migration on one key. *)
Definition legacy_shaped (youtube_id : string) (key : s3key) : bool :=
  match re_match re_legacy_video_key_name (name key) with
  | Some legacy_match => String.eqb (group legacy_match 1) youtube_id
  | None => false
  end.

(** The relative path that the legacy pattern recovers from a key. *)
Definition legacy_relative_path (key : s3key) : string :=
  match re_match re_legacy_video_key_name (name key) with
  | Some legacy_match => group legacy_match 2
  | None => ""
  end.

Definition new_location (youtube_id : string) (key : s3key) : string :=
  youtube_id +:+ ".mp4/" +:+ legacy_relative_path key.

(** What the migration of one key leaves in the trace. *)
Definition copy_events (youtube_id : string) (key : s3key) : list event :=
  [Log Info (MsgCopyingLegacy (name key) (new_location youtube_id key));
   CopyKey (name key) converted_bucket_name (new_location youtube_id key) true].

(** The object that the migration of one key stores. *)
Definition copied_key (now : datetime) (youtube_id : string) (key : s3key) : s3key :=
  S3Key (new_location youtube_id key) now (acl key).

(** The converted bucket after the migration of [keys]. *)
Definition store_copies (now : datetime) (youtube_id : string) (keys : list s3key)
    (bucket : list s3key) : list s3key :=
  fold_left (fun b key => store_key (copied_key now youtube_id key) b) keys bucket.

(** ** Scenarios *)

Module Scenario.

(** The converted bucket holds the two files of the mp4 format of video
    abc123, written at time 0; the clock shows [now]. *)
Definition abc123 (now : datetime) (puts : nat -> put_answer)
    (heads : nat -> head_answer) : world :=
  World [S3Key "abc123.mp4/abc123.mp4" 0%Z "public-read";
         S3Key "abc123.mp4/abc123.png" 0%Z "public-read"]
        [] now puts 0 heads 0 (fun _ => true) (fun _ => true) [].

Definition always_ok : nat -> put_answer := fun _ => PutOk.
Definition always_200 : nat -> head_answer := fun _ => HeadResponse 200.

(** Server errors on the first [n] puts. *)
Definition slow_down (n : nat) : nat -> put_answer :=
  fun i => if (i <? n)%nat then PutServerError 503 "Slow Down" else PutOk.

(** HTTP errors on the first [n] HEAD requests. *)
Definition not_found (n : nat) : nat -> head_answer :=
  fun i => if (i <? n)%nat then HeadHTTPError 404 else HeadResponse 200.

Definition always_404 : nat -> head_answer := fun _ => HeadHTTPError 404.

(** HTTP errors on the first [n] HEAD requests, then a request that fails
    without an HTTP status ([urllib2.URLError], [httplib.BadStatusLine]). *)
Definition connection_lost (n : nat) : nat -> head_answer :=
  fun i => if (i <? n)%nat then HeadHTTPError 503 else HeadFailure.



(** Two legacy keys of one video whose names differ by a newline at the
    end. *)
Definition final_newline : world :=
  World [S3Key "DK1lCc9b7bg/DK1lCc9b7bg.mp4" 0%Z "public-read";
         S3Key ("DK1lCc9b7bg/DK1lCc9b7bg.mp4" +:+ String newline "") 0%Z "private"]
        [] (timedelta_hours 5) always_ok 0 always_200 0
        (fun _ => true) (fun _ => true) [].

(** A video with legacy content next to its current content. *)
Definition legacy : world :=
  World [S3Key "DK1lCc9b7bg/DK1lCc9b7bg.mp4" 0%Z "public-read";
         S3Key "DK1lCc9b7bg/DK1lCc9b7bg.png" 0%Z "private";
         S3Key "DK1lCc9b7bg.m3u8/DK1lCc9b7bg.m3u8" 0%Z "public-read"]
        [] (timedelta_hours 5) always_ok 0 always_200 0
        (fun _ => true) (fun _ => true) [].

End Scenario.

(** ** Vocabulary of the further properties *)

(** The pair that lines 104-107 read off a legacy key. *)
Definition classify_legacy_key (key_name : string) : option (string * string) :=
  match re_match re_legacy_video_key_name key_name with
  | None => None
  | Some legacy_match => Some (group legacy_match 1, group legacy_match 2)
  end.

(** The test [re_legacy_video_key_name.match(name) is not None]. *)
Definition is_legacy_key (key_name : string) : bool :=
  match re_match re_legacy_video_key_name key_name with
  | Some _ => true
  | None => false
  end.

(** The keys that [list_converted_formats] warns about. *)
Definition is_unrecognized_key (key_name : string) : bool :=
  negb (is_current_key key_name) && negb (is_legacy_key key_name).

(** [only_requests w w']: from [w] to [w'] requests were sent and time
    passed; the buckets and the counters of puts are as they were. *)
Definition only_requests (w w' : world) : Prop :=
  converted w' = converted w
  /\ archive w' = archive w
  /\ put_script w' = put_script w
  /\ puts_made w' = puts_made w
  /\ head_script w' = head_script w
  /\ get_file_ok w' = get_file_ok w
  /\ video_metadata_ok w' = video_metadata_ok w
  /\ heads_made w <= heads_made w'
  /\ (utcnow w <= utcnow w')%Z
  /\ exists evs, trace w' = trace w ++ evs.

(** [only_uploads w w']: from [w] to [w'] the converted bucket and the
    scripts are as they were, the archive and the trace were only appended
    to, and the counters and the clock did not go back. *)
Definition only_uploads (w w' : world) : Prop :=
  converted w' = converted w
  /\ put_script w' = put_script w
  /\ head_script w' = head_script w
  /\ get_file_ok w' = get_file_ok w
  /\ video_metadata_ok w' = video_metadata_ok w
  /\ (exists stored, archive w' = archive w ++ stored)
  /\ puts_made w <= puts_made w'
  /\ heads_made w <= heads_made w'
  /\ (utcnow w <= utcnow w')%Z
  /\ exists evs, trace w' = trace w ++ evs.

(** A computation keeps a relation between the world it starts from and
    the world it ends in. *)
Definition preserves {A} (P : world -> world -> Prop) (m : M A) : Prop :=
  forall w, P w (snd (m w)).

(** [only_puts stored w w']: from [w] to [w'] the objects [stored] were
    added to the archive, files were fetched and put and lines were logged;
    nothing else changed. *)
Definition only_puts (stored : list (string * string)) (w w' : world) : Prop :=
  converted w' = converted w
  /\ archive w' = archive w ++ stored
  /\ put_script w' = put_script w
  /\ puts_made w <= puts_made w'
  /\ head_script w' = head_script w
  /\ heads_made w' = heads_made w
  /\ get_file_ok w' = get_file_ok w
  /\ video_metadata_ok w' = video_metadata_ok w
  /\ utcnow w' = utcnow w
  /\ exists evs, trace w' = trace w ++ evs.

(** The name under which a current key is stored in the archive: the key
    without the prefix that the pattern matched (lines 168-170). *)
Definition destination_name (key : s3key) : string :=
  match re_match re_video_key_name (name key) with
  | Some video_match => Str.drop (String.length (group0 video_match)) (name key)
  | None => ""
  end.

(** The key is a current key of the format. *)
Definition key_has_format (format : string) (key : s3key) : bool :=
  match re_match re_video_key_name (name key) with
  | Some video_match => String.eqb (group video_match 2) format
  | None => false
  end.


(** ** The unconverted source of a video

    [get_or_create_unconverted_source_url] works on the unconverted bucket,
    the downloader and the local disk; they make a world of their own. *)

Module Unconverted.

(** [s.rfind(c)]: the index of the last [c] in [s], or -1. *)
Fixpoint rfind_from (c : ascii) (s : string) (i last : Z) : Z :=
  match s with
  | EmptyString => last
  | String a s' => rfind_from c s' (i + 1)%Z (if Ascii.eqb a c then i else last)
  end.

Definition rfind (c : ascii) (s : string) : Z := rfind_from c s 0%Z (-1)%Z.

(** [s[:n]] *)
Fixpoint take (n : nat) (s : string) : string :=
  match n, s with
  | O, _ => EmptyString
  | S n', String a s' => String a (take n' s')
  | S _, EmptyString => EmptyString
  end.

(** The loop of [genericpath._splitext] that skips the leading dots of the
    file name; it runs at most [dotIndex - filenameIndex] times. *)
Fixpoint splitext_loop (p : string) (dotIndex : nat) (turns filenameIndex : nat)
    : string * string :=
  match turns with
  | O => (p, EmptyString)
  | S turns' =>
      match String.get filenameIndex p with
      | Some c =>
          if Ascii.eqb c "." then splitext_loop p dotIndex turns' (S filenameIndex)
          else (take dotIndex p, Str.drop dotIndex p)
      | None => (p, EmptyString)
      end
  end.

(** [os.path.splitext] on a POSIX system: the extension starts at the last
    dot of the last component, unless only dots come before it there. *)
Definition splitext (p : string) : string * string :=
  let sepIndex := rfind "/" p in
  let dotIndex := rfind "." p in
  if (dotIndex >? sepIndex)%Z then
    let filenameIndex := (sepIndex + 1)%Z in
    splitext_loop p (Z.to_nat dotIndex) (Z.to_nat (dotIndex - filenameIndex))
                  (Z.to_nat filenameIndex)
  else (p, EmptyString).

Inductive failure : Type :=
| AssertionFailed
| IndexError        (* the subscript [video_extension[0]] of an empty string *)
| Propagated.       (* an error of a collaborator *)

Inductive result : Type :=
| Url (url : string)
| Failed (e : failure).

(** What [youtube.download] does. *)
Inductive download_answer : Type :=
| Downloaded (video_path : string)
| DownloadedNothing                   (* None *)
| DownloadRaised.

Inductive note : Type :=
| MoreThanOneMatch (youtube_id : string)
| NotAvailableYet
| DownloadedTo (video_path : option string)
| UnrecognizedExtension (video_extension youtube_id : string)
| Deleted (video_path : string).

Inductive event : Type :=
| Log (lvl : level) (msg : note)
| ListKeys (prefix : string)
| Download (youtube_id : string)
| PutFile (key_name video_path : string)
| Remove (video_path : string).

Record world := World {
  unconverted : list string;            (* the names of the keys of the bucket *)
  files : list string;                  (* the paths on the local disk *)
  download : string -> download_answer;
  put_ok : string -> bool;
  trace : list event
}.

Definition bucket_name : string := "KA-youtube-unconverted".

Definition emit (e : event) (w : world) : world :=
  World (unconverted w) (files w) (download w) (put_ok w) (trace w ++ [e]).

Definition store_name (n : string) (b : list string) : list string :=
  List.filter (fun n' => negb (String.eqb n' n)) b ++ [n].

Definition url_of (key_name : string) : string :=
  "s3://" +:+ bucket_name +:+ "/" +:+ key_name.

(** Lines 55-72: the video is downloaded and put in the bucket. *)
Definition create_unconverted_source (youtube_id : string) (w : world)
    : (string + failure) * world :=
  let w := emit (Log Info NotAvailableYet) w in
  let w := emit (Download youtube_id) w in
  match download w youtube_id with
  | DownloadRaised => (inr Propagated, w)
  | DownloadedNothing =>
      (inr AssertionFailed, emit (Log Info (DownloadedTo None)) w)
  | Downloaded video_path =>
      let w := World (unconverted w) (video_path :: files w) (download w) (put_ok w)
                     (trace w) in
      let w := emit (Log Info (DownloadedTo (Some video_path))) w in
      match video_path with
      | EmptyString => (inr AssertionFailed, w)                  (* assert(video_path) *)
      | String _ _ =>
          let video_extension := snd (splitext video_path) in
          match video_extension with
          | EmptyString => (inr IndexError, w)
          | String c video_extension =>
              if negb (Ascii.eqb c ".") then (inr AssertionFailed, w)
              else
                let w :=
                  if negb (String.eqb video_extension "flv"
                           || String.eqb video_extension "mp4")
                  then emit (Log Warning (UnrecognizedExtension video_extension youtube_id)) w
                  else w in
                let key_name := youtube_id +:+ "/" +:+ youtube_id +:+ "." +:+ video_extension in
                let w := emit (PutFile key_name video_path) w in
                if put_ok w key_name then
                  let w := World (store_name key_name (unconverted w)) (files w)
                                 (download w) (put_ok w) (trace w) in
                  let w := emit (Remove video_path) w in
                  let w := World (unconverted w)
                                 (List.filter (fun f => negb (String.eqb f video_path))
                                              (files w))
                                 (download w) (put_ok w) (trace w) in
                  (inl key_name, emit (Log Info (Deleted video_path)) w)
                else (inr Propagated, w)
          end
      end
  end.

Definition get_or_create_unconverted_source_url (youtube_id : string) (w : world)
    : result * world :=
  let w := emit (ListKeys youtube_id) w in
  let matching_keys := List.filter (Str.startswith youtube_id) (unconverted w) in
  match matching_keys with
  | matching_key :: more =>
      let w := match more with
               | _ :: _ => emit (Log Warning (MoreThanOneMatch youtube_id)) w
               | [] => w
               end in
      (Url (url_of matching_key), w)
  | [] =>
      match create_unconverted_source youtube_id w with
      | (inl key_name, w) => (Url (url_of key_name), w)
      | (inr e, w) => (Failed e, w)
      end
  end.

End Unconverted.

(** * Properties *)

(** ** Strings *)

Lemma append_nil (s : string) : "" +:+ s = s.
Proof. reflexivity. Qed.

Lemma append_cons (c : ascii) (s t : string) : String c s +:+ t = String c (s +:+ t).
Proof. reflexivity. Qed.

Ltac str_simpl := rewrite ?append_nil, ?append_cons; simpl.

Lemma append_empty_r (s : string) : s +:+ "" = s.
Proof. induction s as [|c s IH]; str_simpl; [done | by rewrite IH]. Qed.

Lemma append_assoc (a b c : string) : (a +:+ b) +:+ c = a +:+ (b +:+ c).
Proof. induction a as [|x a IH]; str_simpl; [done | by rewrite IH]. Qed.

Lemma drop_length_append (a b : string) : Str.drop (String.length a) (a +:+ b) = b.
Proof. induction a as [|x a IH]; str_simpl; [by destruct b | done]. Qed.

Lemma startswith_append (a b : string) : Str.startswith a (a +:+ b) = true.
Proof.
  induction a as [|x a IH]; str_simpl; [done |].
  by rewrite Ascii.eqb_refl.
Qed.

Lemma take_drop_while (p : ascii -> bool) (s : string) :
  Str.take_while p s +:+ Str.drop_while p s = s.
Proof.
  induction s as [|c s IH]; simpl; [done |].
  destruct (p c); str_simpl; [by rewrite IH | done].
Qed.

Lemma all_take_while (p : ascii -> bool) (s : string) :
  Str.all p (Str.take_while p s) = true.
Proof.
  induction s as [|c s IH]; simpl; [done |].
  destruct (p c) eqn:E; simpl; [by rewrite E | done].
Qed.

Lemma take_while_append (p : ascii -> bool) (a : string) (c : ascii) (r : string) :
  Str.all p a = true -> p c = false ->
  Str.take_while p (a +:+ String c r) = a.
Proof.
  intros Ha Hc. induction a as [|x a IH]; str_simpl; simpl in Ha.
  - by rewrite Hc.
  - apply andb_prop in Ha as [-> Ha]. by rewrite IH.
Qed.

Lemma drop_while_append (p : ascii -> bool) (a : string) (c : ascii) (r : string) :
  Str.all p a = true -> p c = false ->
  Str.drop_while p (a +:+ String c r) = String c r.
Proof.
  intros Ha Hc. induction a as [|x a IH]; str_simpl; simpl in Ha.
  - by rewrite Hc.
  - apply andb_prop in Ha as [-> Ha]. by rewrite IH.
Qed.

(** ** The matcher *)

Local Arguments Ascii.eqb : simpl never.
Local Arguments Str.drop : simpl never.

(** A greedy repetition keeps its longest run whenever what follows it
    cannot start with a character of the class: backtracking into the run
    only offers such characters to the continuation. *)
Lemma star_longest {R} (cls : ascii -> bool) (s : string)
    (k : string -> string -> option R) :
  (forall m c r, cls c = true -> k m (String c r) = None) ->
  star cls s k = k (Str.take_while cls s) (Str.drop_while cls s).
Proof.
  revert k. induction s as [|c s IH]; intros k Hk; simpl; [done |].
  destruct (cls c) eqn:E; [| done].
  rewrite IH by (intros; by apply Hk).
  destruct (k _ _) eqn:Ek; [done |]. by apply Hk.
Qed.

Lemma dot_not_word_or_dash (c : ascii) :
  is_word_or_dash c = true -> Ascii.eqb "." c = false.
Proof.
  intros H. destruct (Ascii.eqb "." c) eqn:E; [| done].
  apply Ascii.eqb_eq in E as <-. by vm_compute in H.
Qed.

Lemma slash_not_word_or_dash (c : ascii) :
  is_word_or_dash c = true -> Ascii.eqb "/" c = false.
Proof.
  intros H. destruct (Ascii.eqb "/" c) eqn:E; [| done].
  apply Ascii.eqb_eq in E as <-. by vm_compute in H.
Qed.

Lemma slash_not_word (c : ascii) :
  is_word c = true -> Ascii.eqb "/" c = false.
Proof.
  intros H. destruct (Ascii.eqb "/" c) eqn:E; [| done].
  apply Ascii.eqb_eq in E as <-. by vm_compute in H.
Qed.

(** What [re_video_key_name.match] computes, without backtracking. *)
Lemma re_video_key_name_match (s : string) :
  re_match re_video_key_name s =
  let id := Str.take_while is_word_or_dash s in
  match id, Str.drop_while is_word_or_dash s with
  | String _ _, String "." r1 =>
      let fmt := Str.take_while is_word r1 in
      match fmt, Str.drop_while is_word r1 with
      | String _ _, String "/" _ =>
          Some (MatchObject (id +:+ "." +:+ fmt +:+ "/") [id; fmt])
      | _, _ => None
      end
  | _, _ => None
  end.
Proof.
  unfold re_match, re_video_key_name. simpl run.
  destruct s as [|c s]; [done |]. simpl.
  destruct (is_word_or_dash c) eqn:Ec; [| done].
  rewrite star_longest
    by (intros m c' r Hc'; simpl; by rewrite dot_not_word_or_dash).
  destruct (Str.drop_while is_word_or_dash s) as [|d r1] eqn:Ed; [done |].
  destruct (Ascii.eqb "." d) eqn:Edot.
  2: { destruct d as [[] [] [] [] [] [] [] []]; done. }
  apply Ascii.eqb_eq in Edot as <-. simpl.
  destruct r1 as [|c2 r1]; [done |]. simpl.
  destruct (is_word c2) eqn:E2; [| done].
  rewrite star_longest
    by (intros m c' r Hc'; simpl; by rewrite slash_not_word).
  destruct (Str.drop_while is_word r1) as [|d2 r2] eqn:Ed2; [done |].
  destruct (Ascii.eqb "/" d2) eqn:Eslash.
  2: { destruct d2 as [[] [] [] [] [] [] [] []]; done. }
  apply Ascii.eqb_eq in Eslash as <-. simpl.
  done.
Qed.

Lemma not_eol_after_dot (c : ascii) (r : string) :
  is_dot c = true -> at_eol (String c r) = false.
Proof.
  unfold is_dot. intros H. destruct r; simpl; [| done].
  by destruct (Ascii.eqb c newline).
Qed.

(** What [re_legacy_video_key_name.match] computes, without backtracking. *)
Lemma re_legacy_video_key_name_match (s : string) :
  re_match re_legacy_video_key_name s =
  let id := Str.take_while is_word_or_dash s in
  match id, Str.drop_while is_word_or_dash s with
  | String _ _, String "/" r1 =>
      let path := Str.take_while is_dot r1 in
      if at_eol (Str.drop_while is_dot r1)
      then Some (MatchObject (id +:+ "/" +:+ path) [id; path])
      else None
  | _, _ => None
  end.
Proof.
  unfold re_match, re_legacy_video_key_name. simpl run.
  destruct s as [|c s]; [done |]. simpl.
  destruct (is_word_or_dash c) eqn:Ec; [| done].
  rewrite star_longest
    by (intros m c' r Hc'; simpl; by rewrite slash_not_word_or_dash).
  destruct (Str.drop_while is_word_or_dash s) as [|d r1] eqn:Ed; [done |].
  destruct (Ascii.eqb "/" d) eqn:Eslash.
  2: { destruct d as [[] [] [] [] [] [] [] []]; done. }
  apply Ascii.eqb_eq in Eslash as <-. simpl.
  rewrite star_longest
    by (intros m c' r Hc'; by rewrite not_eol_after_dot).
  destruct (at_eol _); [| done].
  by rewrite append_empty_r.
Qed.

(** A key that the current pattern accepts is its two groups, a dot and a
    slash in their places, followed by the rest of the name. *)
Lemma classify_video_key_sound (key id fmt path : string) :
  classify_video_key key = Some (id, fmt, path) ->
  video_key_name id fmt path = key
  /\ nonempty_all is_word_or_dash id = true /\ nonempty_all is_word fmt = true.
Proof.
  unfold classify_video_key. rewrite re_video_key_name_match. cbv zeta.
  pose proof (take_drop_while is_word_or_dash key) as Hkey.
  pose proof (all_take_while is_word_or_dash key) as Hid.
  destruct (Str.take_while is_word_or_dash key) as [|c i] eqn:Ei; [done |].
  destruct (Str.drop_while is_word_or_dash key) as [|d r1] eqn:Ed; [done |].
  destruct (Ascii.eqb "." d) eqn:Edot.
  2: { destruct d as [[] [] [] [] [] [] [] []]; done. }
  apply Ascii.eqb_eq in Edot as <-.
  pose proof (take_drop_while is_word r1) as Hr1.
  pose proof (all_take_while is_word r1) as Hfmt.
  destruct (Str.take_while is_word r1) as [|c2 f] eqn:Ef; [done |].
  destruct (Str.drop_while is_word r1) as [|d2 r2] eqn:Ed2; [done |].
  destruct (Ascii.eqb "/" d2) eqn:Eslash.
  2: { destruct d2 as [[] [] [] [] [] [] [] []]; done. }
  apply Ascii.eqb_eq in Eslash as <-.
  set (pre := String c i +:+ "." +:+ String c2 f +:+ "/").
  assert (key = pre +:+ r2) as Hpre
    by (subst pre; rewrite <- Hkey, <- Hr1, !append_assoc; done).
  unfold group; simpl nth; cbn [group0].
  intros [= <- <- <-]. split; [| done].
  change (S (String.length (i +:+ "." +:+ String c2 f +:+ "/")))
    with (String.length pre).
  rewrite Hpre at 1. rewrite drop_length_append.
  subst pre. unfold video_key_name. by rewrite Hpre, !append_assoc.
Qed.

Lemma nonempty_all_inv (cls : ascii -> bool) (s : string) :
  nonempty_all cls s = true -> Str.all cls s = true /\ exists c r, s = String c r.
Proof. destruct s; [done |]. eauto. Qed.

Lemma classify_video_key_complete (id fmt path : string) :
  nonempty_all is_word_or_dash id = true ->
  nonempty_all is_word fmt = true ->
  classify_video_key (video_key_name id fmt path) = Some (id, fmt, path).
Proof.
  intros [Hid (c & i & Ei)]%nonempty_all_inv [Hfmt (c2 & f & Ef)]%nonempty_all_inv.
  unfold classify_video_key, video_key_name.
  rewrite re_video_key_name_match. cbv zeta.
  change (id +:+ "." +:+ fmt +:+ "/" +:+ path)
    with (id +:+ String "." (fmt +:+ String "/" path)).
  rewrite take_while_append, drop_while_append by done.
  rewrite take_while_append, drop_while_append by done.
  rewrite Ei, Ef. rewrite <- Ei, <- Ef.
  unfold group; simpl nth; cbn [group0].
  replace (id +:+ String "." (fmt +:+ String "/" path))
    with ((id +:+ "." +:+ fmt +:+ "/") +:+ path)
    by (by rewrite !append_assoc).
  by rewrite drop_length_append.
Qed.

(** C6. For every well-formed current-style key, built from an id made of
    one or more characters of [[\w-]], a format made of one or more
    characters of [\w] and any path, the classifier recovers exactly the
    triple (id, format, path), and the key rebuilt from whatever triple the
    classifier returns for that key is the key itself. *)
Theorem video_key_roundtrip (id fmt path : string) :
  nonempty_all is_word_or_dash id = true ->
  nonempty_all is_word fmt = true ->
  classify_video_key (video_key_name id fmt path) = Some (id, fmt, path)
  /\ (forall id' fmt' path',
        classify_video_key (video_key_name id fmt path) = Some (id', fmt', path') ->
        video_key_name id' fmt' path' = video_key_name id fmt path).
Proof.
  intros Hid Hfmt. split.
  - by apply classify_video_key_complete.
  - intros id' fmt' path' H. by apply classify_video_key_sound in H as [? _].
Qed.

Lemma video_key_roundtrip_witness :
  nonempty_all is_word_or_dash "Dpo_-GrMpNE" = true
  /\ nonempty_all is_word "m3u8" = true
  /\ classify_video_key (video_key_name "Dpo_-GrMpNE" "m3u8" "Dpo_-GrMpNE.m3u8")
     = Some ("Dpo_-GrMpNE", "m3u8", "Dpo_-GrMpNE.m3u8").
Proof.
  split; [reflexivity |]. split; [reflexivity |].
  apply (video_key_roundtrip "Dpo_-GrMpNE" "m3u8" "Dpo_-GrMpNE.m3u8"); reflexivity.
Defined.

(** ** The two patterns exclude each other *)

Lemma patterns_exclusive (key : string) :
  re_match re_video_key_name key = None
  \/ re_match re_legacy_video_key_name key = None.
Proof.
  rewrite re_video_key_name_match, re_legacy_video_key_name_match. cbv zeta.
  destruct (Str.take_while is_word_or_dash key); [by left |].
  destruct (Str.drop_while is_word_or_dash key) as [|d r]; [by left |].
  destruct (Ascii.eqb "." d) eqn:Edot.
  - apply Ascii.eqb_eq in Edot as <-. by right.
  - left. destruct d as [[] [] [] [] [] [] [] []]; done.
Qed.

Lemma list_legacy_mp4_videos_fold (listing : list string) (acc : gset string) (v : string) :
  v ∈ fold_left
        (fun legacy_mp4_videos key_name =>
           match re_match re_legacy_video_key_name key_name with
           | Some legacy_match => legacy_mp4_videos ∪ {[group legacy_match 1]}
           | None => legacy_mp4_videos
           end) listing acc
  <-> v ∈ acc \/ exists key m, key ∈ listing
         /\ re_match re_legacy_video_key_name key = Some m /\ group m 1 = v.
Proof.
  revert acc. induction listing as [|k listing IH]; intros acc; simpl.
  - split; [by left |]. intros [? | (key & m & Hin & _)]; [done |].
    by apply elem_of_nil in Hin.
  - rewrite IH. split.
    + intros [Hv | (key & m & Hin & Hm & Hg)].
      * destruct (re_match re_legacy_video_key_name k) as [m|] eqn:Ek; [| by left].
        apply elem_of_union in Hv as [Hv | Hv]; [by left |].
        apply elem_of_singleton in Hv. right. exists k, m.
        split; [apply list_elem_of_here | done].
      * right. exists key, m. split; [by apply list_elem_of_further | done].
    + intros [Hv | (key & m & Hin & Hm & Hg)].
      * left. destruct (re_match re_legacy_video_key_name k);
          [apply elem_of_union; by left | done].
      * apply elem_of_cons in Hin as [-> | Hin].
        -- left. rewrite Hm, <- Hg. apply elem_of_union. right.
           by apply elem_of_singleton.
        -- right. by exists key, m.
Qed.

Lemma list_legacy_mp4_videos_elem (listing : list string) (v : string) :
  v ∈ list_legacy_mp4_videos listing
  <-> exists key m, key ∈ listing
        /\ re_match re_legacy_video_key_name key = Some m /\ group m 1 = v.
Proof.
  unfold list_legacy_mp4_videos. rewrite list_legacy_mp4_videos_fold.
  split; [intros [H | H]; [by apply not_elem_of_empty in H | done] | by right].
Qed.

Lemma is_current_key_not_legacy (key : string) :
  is_current_key key = true -> re_match re_legacy_video_key_name key = None.
Proof.
  unfold is_current_key. destruct (patterns_exclusive key) as [-> | ->]; done.
Qed.

(** C9. No key matches both the current pattern and the legacy pattern;
    hence every id that [list_legacy_mp4_videos] returns comes from a key
    that is not a current-format key, and the current-format keys of a
    listing can be removed without changing what the function returns. *)
Theorem legacy_listing_ignores_current_keys (listing : list string) :
  (forall key, ~ (is_Some (re_match re_video_key_name key)
                 /\ is_Some (re_match re_legacy_video_key_name key)))
  /\ (forall v, v ∈ list_legacy_mp4_videos listing ->
        exists key m, key ∈ listing
          /\ re_match re_legacy_video_key_name key = Some m /\ group m 1 = v
          /\ re_match re_video_key_name key = None)
  /\ list_legacy_mp4_videos listing
     = list_legacy_mp4_videos (List.filter (fun key => negb (is_current_key key)) listing).
Proof.
  split; [| split].
  - intros key [[m1 H1] [m2 H2]].
    destruct (patterns_exclusive key) as [H | H]; congruence.
  - intros v (key & m & Hin & Hm & Hg)%list_legacy_mp4_videos_elem.
    exists key, m. repeat split; try done.
    destruct (patterns_exclusive key) as [H | H]; congruence.
  - apply set_eq. intros v. rewrite !list_legacy_mp4_videos_elem.
    split; intros (key & m & Hin & Hm & Hg); exists key, m; repeat split; try done.
    + apply list_elem_of_In, filter_In. split; [by apply list_elem_of_In |].
      destruct (is_current_key key) eqn:E; [| done].
      apply is_current_key_not_legacy in E. congruence.
    + apply list_elem_of_In. apply list_elem_of_In, filter_In in Hin. tauto.
Qed.

(** ** Missing formats *)

Lemma defaultdict_getitem_fst {V} (dflt : V) (d : gmap string V) (k : string) :
  fst (defaultdict_getitem dflt d k) = default dflt (d !! k).
Proof. unfold defaultdict_getitem. by destruct (d !! k). Qed.

(** Reading a [defaultdict] binds the key, which no later read can tell
    from the key being absent. *)
Lemma defaultdict_getitem_snd {V} (dflt : V) (d : gmap string V) (k k' : string) :
  default dflt (snd (defaultdict_getitem dflt d k) !! k') = default dflt (d !! k').
Proof.
  unfold defaultdict_getitem. destruct (d !! k) eqn:E; simpl; [done |].
  destruct (decide (k = k')) as [<- | Hne].
  - by rewrite lookup_insert_eq, E.
  - by rewrite lookup_insert_ne.
Qed.

Lemma list_missing_step_skip (DF : gset string)
    (st : gmap string (gset string) * gmap string (gset string))
    (video : gmap string string) :
  video !! "youtube_id" = None -> list_missing_step DF st video = st.
Proof. intros H. unfold list_missing_step. destruct st. by rewrite H. Qed.

Lemma list_missing_step_id (DF : gset string)
    (missing cf : gmap string (gset string)) (video : gmap string string) (v : string) :
  video !! "youtube_id" = Some v ->
  list_missing_step DF (missing, cf) video
  = (<[v := DF ∖ default ∅ (cf !! v)]> missing, snd (defaultdict_getitem ∅ cf v)).
Proof.
  intros H. unfold list_missing_step. rewrite H.
  rewrite <- defaultdict_getitem_fst. by destruct (defaultdict_getitem ∅ cf v).
Qed.

Lemma list_missing_fold (DF : gset string) (vids : list (gmap string string))
    (missing cf : gmap string (gset string)) :
  let st := fold_left (list_missing_step DF) vids (missing, cf) in
  (forall k, default ∅ (snd st !! k) = default ∅ (cf !! k))
  /\ (forall v, (exists video, video ∈ vids /\ video !! "youtube_id" = Some v) ->
        fst st !! v = Some (DF ∖ default ∅ (cf !! v)))
  /\ (forall v, (forall video, video ∈ vids -> video !! "youtube_id" <> Some v) ->
        fst st !! v = missing !! v).
Proof.
  induction vids as [|video vids IH] using rev_ind; simpl.
  - split; [done |]. split; [| done].
    intros v (video & Hin & _). by apply elem_of_nil in Hin.
  - rewrite fold_left_app. simpl.
    destruct (fold_left (list_missing_step DF) vids (missing, cf)) as [m1 cf1].
    simpl in IH. destruct IH as (IHcf & IHin & IHout).
    destruct (video !! "youtube_id") as [y|] eqn:Ey.
    + rewrite (list_missing_step_id _ _ _ _ _ Ey). simpl.
      split; [| split].
      * intros k. by rewrite defaultdict_getitem_snd.
      * intros v (video' & Hin & Hv).
        destruct (decide (y = v)) as [-> | Hne].
        -- by rewrite lookup_insert_eq, IHcf.
        -- rewrite lookup_insert_ne by done. apply IHin.
           apply elem_of_app in Hin as [Hin | Hin]; [by exists video' |].
           apply list_elem_of_singleton in Hin as ->. congruence.
      * intros v Hv.
        assert (y <> v) as Hne.
        { intros ->. apply (Hv video); [| done].
          apply elem_of_app. right. by apply list_elem_of_singleton. }
        rewrite lookup_insert_ne by done. apply IHout.
        intros video' Hin. apply Hv, elem_of_app. by left.
    + rewrite (list_missing_step_skip _ _ _ Ey). simpl.
      split; [done | split].
      * intros v (video' & Hin & Hv). apply IHin.
        apply elem_of_app in Hin as [Hin | Hin]; [by exists video' |].
        apply list_elem_of_singleton in Hin as ->. congruence.
      * intros v Hv. apply IHout.
        intros video' Hin. apply Hv, elem_of_app. by left.
Qed.

Lemma fold_playlists {A} (f : A -> gmap string string -> A) (library : list playlist) (st : A) :
  fold_left (fun st playlist => fold_left f (videos playlist) st) library st
  = fold_left f (flat_map videos library) st.
Proof.
  revert st. induction library as [|p library IH]; intros st; simpl; [done |].
  by rewrite fold_left_app, IH.
Qed.

Lemma elem_of_library_videos (library : list playlist) (video : gmap string string) :
  video ∈ flat_map videos library
  <-> exists playlist, playlist ∈ library /\ video ∈ videos playlist.
Proof.
  rewrite list_elem_of_In, in_flat_map. split.
  - intros (p & Hp & Hv). exists p. by rewrite !list_elem_of_In.
  - intros (p & Hp & Hv). exists p. by rewrite <- !list_elem_of_In.
Qed.

(** What [list_missing_converted_formats] returns, entry by entry. *)
Lemma list_missing_converted_formats_lookup (DF : gset string)
    (listing : list string) (library : list playlist) (v : string) :
  let missing := fst (list_missing_converted_formats DF listing library) in
  let converted_formats := fst (list_converted_formats listing) in
  ((exists playlist video, playlist ∈ library /\ video ∈ videos playlist
       /\ video !! "youtube_id" = Some v) ->
   missing !! v = Some (DF ∖ default ∅ (converted_formats !! v)))
  /\ ((forall playlist video, playlist ∈ library -> video ∈ videos playlist ->
         video !! "youtube_id" <> Some v) ->
      missing !! v = None).
Proof.
  unfold list_missing_converted_formats.
  destruct (list_converted_formats listing) as [cf logs]. simpl.
  rewrite fold_playlists.
  pose proof (list_missing_fold DF (flat_map videos library) ∅ cf) as (_ & Hin & Hout).
  destruct (fold_left _ _ _) as [missing cf']. simpl in *. split.
  - intros (p & video & Hp & Hv & Hy). apply Hin. exists video.
    split; [| done]. apply elem_of_library_videos. by exists p.
  - intros H. rewrite Hout; [done |].
    intros video (p & Hp & Hv)%elem_of_library_videos. by apply (H p).
Qed.

(** C7. A video of the catalog whose id has no entry in the inventory is
    reported with the full required set: the lookup in the inventory reads
    the empty set instead of failing. *)
Theorem missing_formats_of_absent_video (DF : gset string) (listing : list string)
    (library : list playlist) (playlist : playlist) (video : gmap string string)
    (v : string) :
  playlist ∈ library ->
  video ∈ videos playlist ->
  video !! "youtube_id" = Some v ->
  fst (list_converted_formats listing) !! v = None ->
  fst (defaultdict_getitem ∅ (fst (list_converted_formats listing)) v) = ∅
  /\ fst (list_missing_converted_formats DF listing library) !! v = Some DF.
Proof.
  intros Hp Hv Hy Habsent. split.
  - by rewrite defaultdict_getitem_fst, Habsent.
  - destruct (list_missing_converted_formats_lookup DF listing library v) as [H _].
    rewrite H by (by exists playlist, video).
    rewrite Habsent. simpl. f_equal. apply difference_empty_L.
Qed.

Lemma missing_formats_of_absent_video_witness :
  fst (list_missing_converted_formats {["mp4"; "m3u8"]} ["DK1lCc9b7bg.mp4/"]
         [Playlist [ {["youtube_id" := "Dpo_-GrMpNE"]} ]]) !! "Dpo_-GrMpNE"
  = Some {["mp4"; "m3u8"]}.
Proof.
  apply (missing_formats_of_absent_video {["mp4"; "m3u8"]} ["DK1lCc9b7bg.mp4/"]
           [Playlist [ {["youtube_id" := "Dpo_-GrMpNE"]} ]]
           (Playlist [ {["youtube_id" := "Dpo_-GrMpNE"]} ])
           {["youtube_id" := "Dpo_-GrMpNE"]} "Dpo_-GrMpNE").
  - apply list_elem_of_here.
  - apply list_elem_of_here.
  - reflexivity.
  - vm_compute. reflexivity.
Defined.

Lemma list_missing_fold_filter (DF : gset string) (vids : list (gmap string string))
    (st : gmap string (gset string) * gmap string (gset string)) :
  fold_left (list_missing_step DF) (List.filter has_youtube_id vids) st
  = fold_left (list_missing_step DF) vids st.
Proof.
  revert st. induction vids as [|video vids IH]; intros st; simpl; [done |].
  unfold has_youtube_id at 1.
  destruct (video !! "youtube_id") eqn:E; simpl; [done |].
  by rewrite list_missing_step_skip.
Qed.

Lemma youtube_videos_only_flat (library : list playlist) :
  flat_map videos (youtube_videos_only library)
  = List.filter has_youtube_id (flat_map videos library).
Proof.
  induction library as [|p library IH]; simpl; [done |].
  by rewrite List.filter_app, IH.
Qed.

(** C10. A video of the catalog without a [youtube_id] leaves the result as
    it was: the mapping has an entry exactly for the ids that some video of
    the catalog carries, and it is the mapping computed from the catalog
    with the id-less videos taken out. *)
Theorem videos_without_youtube_id_are_skipped (DF : gset string)
    (listing : list string) (library : list playlist) :
  (forall st video, has_youtube_id video = false ->
     list_missing_step DF st video = st)
  /\ (forall v, is_Some (fst (list_missing_converted_formats DF listing library) !! v)
        <-> exists playlist video, playlist ∈ library /\ video ∈ videos playlist
              /\ video !! "youtube_id" = Some v)
  /\ list_missing_converted_formats DF listing library
     = list_missing_converted_formats DF listing (youtube_videos_only library).
Proof.
  split; [| split].
  - intros st video H. apply list_missing_step_skip.
    unfold has_youtube_id in H. by destruct (video !! "youtube_id").
  - intros v.
    destruct (list_missing_converted_formats_lookup DF listing library v) as [Hin Hout].
    split.
    + intros Hsome.
      destruct (decide (Exists (fun video : gmap string string =>
                                  video !! "youtube_id" = Some v)
                               (flat_map videos library))) as [Hex | Hno].
      * apply Exists_exists in Hex as (video & Hv & Hy).
        apply elem_of_library_videos in Hv as (p & Hp & Hv). by exists p, video.
      * rewrite Hout in Hsome; [by destruct Hsome |].
        intros p video Hp Hv Hy. apply Hno, Exists_exists. exists video.
        split; [| done]. apply elem_of_library_videos. by exists p.
    + intros H. rewrite (Hin H). eauto.
  - unfold list_missing_converted_formats.
    destruct (list_converted_formats listing) as [cf logs].
    by rewrite !fold_playlists, youtube_videos_only_flat, list_missing_fold_filter.
Qed.

(** ** Readiness *)

Lemma gather_source_keys_gate (youtube_id : string) (key : s3key) (rest : list s3key)
    (skf : gmap string (list s3key)) (w : world) (m : match_object) :
  re_match re_video_key_name (name key) = Some m ->
  group m 1 = youtube_id ->
  gather_source_keys youtube_id (key :: rest) skf w
  = if is_ready (utcnow w) (last_modified key)
    then gather_source_keys youtube_id rest (append_source_key skf (group m 2) key) w
    else (Return false,
          emit (Log Error (MsgStillUploading (group m 2) youtube_id (last_modified key))) w).
Proof.
  intros Hm Hid. simpl. rewrite Hm, Hid, String.eqb_refl.
  unfold is_ready, bind, assert, ret, datetime_utcnow, logger, return_. simpl.
  by destruct (too_recent (utcnow w) (last_modified key)).
Qed.

(** C4. An object last modified now is not ready; an object last modified
    two hours ago is ready; an object last modified exactly one hour ago is
    ready, whatever the object and the time; and the loop over the
    discovered keys goes on or returns False by this predicate. *)
Theorem readiness_window (now : datetime) :
  is_ready now now = false
  /\ is_ready now (now - timedelta_hours 2)%Z = true
  /\ is_ready now (now - timedelta_hours 1)%Z = true
  /\ (forall youtube_id key rest skf w m,
        re_match re_video_key_name (name key) = Some m ->
        group m 1 = youtube_id ->
        utcnow w = now ->
        gather_source_keys youtube_id (key :: rest) skf w
        = if is_ready now (last_modified key)
          then gather_source_keys youtube_id rest
                 (append_source_key skf (group m 2) key) w
          else (Return false,
                emit (Log Error (MsgStillUploading (group m 2) youtube_id
                                   (last_modified key))) w)).
Proof.
  unfold is_ready, too_recent, timedelta_hours, timedelta_seconds.
  repeat split.
  - apply negb_false_iff, Z.ltb_lt. lia.
  - apply negb_true_iff, Z.ltb_ge. lia.
  - apply negb_true_iff, Z.ltb_ge. lia.
  - intros youtube_id key rest skf w m Hm Hid <-.
    by apply gather_source_keys_gate.
Qed.

(** ** Scripts and worlds *)

Lemma next_answers_S {A} (script : nat -> A) (made n : nat) :
  next_answers script made (S n) = script made :: next_answers script (S made) n.
Proof.
  unfold next_answers. simpl. rewrite Nat.add_0_r. f_equal.
  rewrite <- seq_shift, map_map. apply map_ext. intros i. f_equal. lia.
Qed.

Lemma next_answers_app {A} (script : nat -> A) (made a b : nat) :
  next_answers script made (a + b)
  = next_answers script made a ++ next_answers script (made + a) b.
Proof.
  revert made. induction a as [|a IH]; intros made.
  - by rewrite Nat.add_0_r.
  - change (S a + b) with (S (a + b)). rewrite !next_answers_S, IH.
    by replace (made + S a) with (S made + a) by lia.
Qed.

Lemma next_answers_length {A} (script : nat -> A) (made n : nat) :
  length (next_answers script made n) = n.
Proof. unfold next_answers. by rewrite length_map, length_seq. Qed.

Lemma extend_nil (w : world) : extend [] w = w.
Proof. destruct w. unfold extend. simpl. by rewrite app_nil_r. Qed.

Lemma extend_extend (evs1 evs2 : list event) (w : world) :
  extend evs2 (extend evs1 w) = extend (evs1 ++ evs2) w.
Proof. unfold extend. simpl. by rewrite app_assoc. Qed.

Lemma emit_extend (e : event) (w : world) : emit e w = extend [e] w.
Proof. done. Qed.

(** Two worlds are equal when their fields are. *)
Lemma world_ext (w1 w2 : world) :
  converted w1 = converted w2 -> archive w1 = archive w2 -> utcnow w1 = utcnow w2 ->
  put_script w1 = put_script w2 -> puts_made w1 = puts_made w2 ->
  head_script w1 = head_script w2 -> heads_made w1 = heads_made w2 ->
  get_file_ok w1 = get_file_ok w2 -> video_metadata_ok w1 = video_metadata_ok w2 ->
  trace w1 = trace w2 -> w1 = w2.
Proof. destruct w1, w2. simpl. by intros -> -> -> -> -> -> -> -> -> ->. Qed.

Ltac world_fields :=
  cbn [extend set_puts_made set_heads_made set_archive set_utcnow set_converted
       emit bind logger raise ret return_ sleep
       converted archive utcnow put_script puts_made head_script heads_made
       get_file_ok video_metadata_ok trace fst snd].

Ltac world_fields_in H :=
  cbn [extend set_puts_made set_heads_made set_archive set_utcnow set_converted
       emit bind logger raise ret return_ sleep
       converted archive utcnow put_script puts_made head_script heads_made
       get_file_ok video_metadata_ok trace fst snd] in H.

Ltac world_eq :=
  unfold raise, ret, return_, logger, bind, sleep; cbn beta iota;
  repeat match goal with |- (_, _) = (_, _) => f_equal end;
  try (apply world_ext); world_fields;
  try reflexivity; try (unfold timedelta_seconds; lia);
  try (rewrite <- ?app_assoc;
       cbn [app failed_put_events failed_head_events];
       rewrite ?app_nil_r; reflexivity).

(** ** The retry loop of the upload *)

Lemma put_attempts_failures (errors : list (nat * string)) :
  forall (a : nat) (tail : list nat) (bucket dest : string) (w : world),
  next_answers (put_script w) (puts_made w) (length errors) = map server_error errors ->
  put_attempts (seq a (length errors) ++ tail) bucket dest w
  = put_attempts tail bucket dest
      (extend (failed_put_events bucket dest a errors)
              (set_puts_made (puts_made w + length errors) w)).
Proof.
  induction errors as [|[status reason] errors IH]; intros a tail bucket dest w H.
  - simpl. rewrite Nat.add_0_r. f_equal. destruct w. unfold extend, set_puts_made.
    simpl. by rewrite app_nil_r.
  - simpl length in *. rewrite next_answers_S in H. injection H as Hhd Htl.
    cbn [seq app put_attempts]. unfold set_contents_from_file. rewrite Hhd.
    unfold bind, logger. cbn [server_error fst snd].
    rewrite IH by done.
    f_equal. destruct w. world_eq.
Qed.

(** C1. When the first nine puts of an object answer with a server error,
    the tenth put decides: if it succeeds the loop ends normally and the
    object is stored; if it fails with a server error the function raises
    its "gave up" exception.  In both cases exactly ten puts were made. *)
Theorem upload_retry_budget (bucket dest : string) (w : world)
    (errors : list (nat * string)) (final : put_answer) :
  length errors = 9 ->
  next_answers (put_script w) (puts_made w) 10 = map server_error errors ++ [final] ->
  let w' := extend (failed_put_events bucket dest 0 errors ++ [PutFile bucket dest])
                   (set_puts_made (puts_made w + 10) w) in
  upload_with_retries bucket dest w
  = match final with
    | PutOk => (Normal tt, set_archive (archive w ++ [(bucket, dest)]) w')
    | PutServerError status reason =>
        (Raise GaveUp, extend [Log Error (MsgUploadError status reason 9)] w')
    | PutFailure => (Raise Uncaught, w')
    end
  /\ puts_made (snd (upload_with_retries bucket dest w)) = puts_made w + 10.
Proof.
  intros Hlen H. cbv zeta.
  change 10 with (9 + 1) in H. rewrite next_answers_app in H.
  apply app_inj_1 in H as [Herr Hfin];
    [| by rewrite next_answers_length, length_map].
  unfold next_answers in Hfin. simpl in Hfin. injection Hfin as Hfin.
  rewrite Nat.add_0_r in Hfin.
  match goal with |- ?lhs = ?rhs /\ _ => assert (lhs = rhs) as Heq end.
  { unfold upload_with_retries.
    change (seq 0 10) with (seq 0 9 ++ [9]). rewrite <- Hlen at 1.
    rewrite put_attempts_failures by (by rewrite Hlen).
    rewrite Hlen. cbn [put_attempts]. unfold set_contents_from_file.
    cbn [put_script puts_made extend set_puts_made]. rewrite Hfin.
    destruct w, final; world_eq. }
  split; [done |]. rewrite Heq. by destruct final.
Qed.

(** ** The retry loop of the verification *)

Lemma verify_while_errors (codes : list nat) :
  forall (r c : nat) (url : string) (w : world),
  next_answers (head_script w) (heads_made w) (length codes) = map HeadHTTPError codes ->
  verify_while (length codes + r) c url w
  = verify_while r (c + length codes) url
      (extend (failed_head_events url c codes)
         (set_utcnow (utcnow w + timedelta_seconds (10 * Z.of_nat (length codes)))%Z
            (set_heads_made (heads_made w + length codes) w))).
Proof.
  induction codes as [|code codes IH]; intros r c url w H.
  - simpl. rewrite !Nat.add_0_r. f_equal. destruct w.
    unfold timedelta_seconds. world_eq.
  - simpl length in *. rewrite next_answers_S in H. injection H as Hhd Htl.
    cbn [Nat.add verify_while]. unfold urlopen_head. rewrite Hhd.
    unfold bind, logger, sleep.
    rewrite IH by done.
    f_equal; [lia |]. destruct w. unfold timedelta_seconds. world_eq.
Qed.

(** Whatever the answers, the loop makes at most [remaining] requests, a
    request answered by an HTTP error is followed by a log line and a sleep
    of ten seconds, and the loop returns unless a request fails otherwise. *)
Lemma verify_while_shape (r : nat) :
  forall (c : nat) (url : string) (w : world),
  exists codes,
    let res := verify_while r c url w in
    (length codes = r /\ fst res = Return false
     /\ trace (snd res) = trace w ++ failed_head_events url c codes
     /\ heads_made (snd res) = heads_made w + length codes)
    \/ (length codes < r
        /\ ((exists code, fst res = Return (code =? 200)%nat) \/ fst res = Raise Uncaught)
        /\ trace (snd res) = trace w ++ failed_head_events url c codes ++ [HeadRequest url]
        /\ heads_made (snd res) = heads_made w + length codes + 1).
Proof.
  induction r as [|r IH]; intros c url w.
  - exists []. left. simpl. by rewrite app_nil_r, Nat.add_0_r.
  - cbn [verify_while]. unfold urlopen_head.
    destruct (head_script w (heads_made w)) as [code | code |] eqn:E.
    + exists []. right. simpl. repeat split; [lia | eauto | lia].
    + unfold bind, logger, sleep.
      match goal with |- context [verify_while r ?c' url ?w'] =>
        destruct (IH c' url w') as (codes & Hcodes) end.
      exists (code :: codes). cbv zeta in Hcodes.
      destruct Hcodes as [(Hlen & Hres & Htr & Hh) | (Hlen & Hres & Htr & Hh)].
      * left. rewrite Hres, Htr, Hh. simpl.
        repeat split; [lia | | lia]. by rewrite <- !app_assoc.
      * right. rewrite Htr, Hh. simpl.
        repeat split; [lia | done | | lia]. by rewrite <- !app_assoc.
    + exists []. right. simpl. repeat split; [lia | eauto | lia].
Qed.

(** The outcome of the loop, read off the script of answers.  The answers
    before the deciding one are HTTP errors, each followed by a sleep of ten
    seconds.  After [remaining] of them the loop returns False; otherwise
    the next answer decides: a response is compared with 200, and a failure
    that is not an HTTP error leaves the loop as an exception. *)
Lemma verify_while_script (r : nat) :
  forall (c : nat) (url : string) (w : world),
  exists codes,
    let res := verify_while r c url w in
    next_answers (head_script w) (heads_made w) (length codes) = map HeadHTTPError codes
    /\ utcnow (snd res) = (utcnow w + timedelta_seconds (10 * Z.of_nat (length codes)))%Z
    /\ ((length codes = r /\ fst res = Return false
         /\ trace (snd res) = trace w ++ failed_head_events url c codes
         /\ heads_made (snd res) = heads_made w + length codes)
        \/ (length codes < r
            /\ match head_script w (heads_made w + length codes) with
               | HeadResponse code => fst res = Return (code =? 200)%nat
               | HeadHTTPError _ => False
               | HeadFailure => fst res = Raise Uncaught
               end
            /\ trace (snd res) = trace w ++ failed_head_events url c codes ++ [HeadRequest url]
            /\ heads_made (snd res) = heads_made w + length codes + 1)).
Proof.
  induction r as [|r IH]; intros c url w.
  - exists []. cbn [verify_while return_ length map fst snd failed_head_events].
    split; [done |]. split; [unfold timedelta_seconds; lia |].
    left. by rewrite app_nil_r, Nat.add_0_r.
  - cbn [verify_while]. unfold urlopen_head.
    destruct (head_script w (heads_made w)) as [code | code |] eqn:E.
    + exists []. cbn [length map fst snd failed_head_events app]. world_fields.
      split; [done |]. split; [unfold timedelta_seconds; lia |].
      right. rewrite Nat.add_0_r, E. repeat split; lia.
    + unfold bind, logger, sleep.
      match goal with |- context [verify_while r ?c' url ?w'] =>
        destruct (IH c' url w') as (codes & Hscript & Hnow & Hcodes) end.
      exists (code :: codes). cbv zeta in Hscript, Hnow, Hcodes |- *.
      world_fields. world_fields_in Hscript. world_fields_in Hnow.
      world_fields_in Hcodes.
      cbn [length map failed_head_events].
      split; [by rewrite next_answers_S, E, Hscript |].
      split; [rewrite Hnow; unfold timedelta_seconds; lia |].
      destruct Hcodes as [(Hl & Hres & Htr & Hh) | (Hl & Hres & Htr & Hh)].
      * left. rewrite Hres, Htr, Hh.
        repeat split; [lia | | lia]. by rewrite <- !app_assoc.
      * right. rewrite Htr, Hh.
        repeat split; [lia | | | lia].
        -- by replace (heads_made w + S (length codes))
             with (S (heads_made w) + length codes) by lia.
        -- by rewrite <- !app_assoc.
    + exists []. cbn [length map fst snd failed_head_events app]. world_fields.
      split; [done |]. split; [unfold timedelta_seconds; lia |].
      right. rewrite Nat.add_0_r, E. repeat split; lia.
Qed.

(** C2, as the code has it.  The loop retries on [urllib2.HTTPError], the
    one exception it catches.  When the first four HEAD requests answer
    with an HTTP error, the fifth decides: a response is compared with 200,
    a fifth HTTP error makes the function return False, and a failure that
    is not an HTTP error leaves the function as an exception.  For every
    world, the answers before the deciding one are HTTP errors, at most
    five, each followed by a sleep of ten seconds; five of them give False
    after five requests; fewer than five are followed by one more request,
    whose answer is a response, compared with 200, or a failure that is
    not an HTTP error, which is raised at once and not retried.  So the
    function raises exactly when such a failure comes before the fifth
    HTTP error, and never on HTTP errors alone. *)
Theorem verification_retry_budget (youtube_id filename : string) (w : world)
    (codes : list nat) (final : head_answer) :
  length codes = 4 ->
  next_answers (head_script w) (heads_made w) 5 = map HeadHTTPError codes ++ [final] ->
  let url := archive_url youtube_id filename in
  let w5 := extend (failed_head_events url 0 codes ++ [HeadRequest url])
              (set_utcnow (utcnow w + timedelta_seconds 40)%Z
                 (set_heads_made (heads_made w + 5) w)) in
  verify_archive_upload youtube_id filename w
  = match final with
    | HeadResponse code => (Return (code =? 200)%nat, w5)
    | HeadHTTPError code =>
        (Return false,
         extend [Log Error (MsgVerifyFinal code); Sleep 10]
           (set_utcnow (utcnow w + timedelta_seconds 50)%Z w5))
    | HeadFailure => (Raise Uncaught, w5)
    end
  /\ (forall w0, exists codes0,
        let res := verify_archive_upload youtube_id filename w0 in
        next_answers (head_script w0) (heads_made w0) (length codes0)
        = map HeadHTTPError codes0
        /\ utcnow (snd res)
           = (utcnow w0 + timedelta_seconds (10 * Z.of_nat (length codes0)))%Z
        /\ ((length codes0 = 5 /\ fst res = Return false
             /\ trace (snd res) = trace w0 ++ failed_head_events url 0 codes0
             /\ heads_made (snd res) = heads_made w0 + 5)
            \/ (length codes0 < 5
                /\ match head_script w0 (heads_made w0 + length codes0) with
                   | HeadResponse code => fst res = Return (code =? 200)%nat
                   | HeadHTTPError _ => False
                   | HeadFailure => fst res = Raise Uncaught
                   end
                /\ trace (snd res)
                   = trace w0 ++ failed_head_events url 0 codes0 ++ [HeadRequest url]
                /\ heads_made (snd res) = heads_made w0 + length codes0 + 1)))
  /\ (forall w0,
        (exists e, fst (verify_archive_upload youtube_id filename w0) = Raise e)
        <-> exists n, n < 5
              /\ (forall i, i < n -> exists code,
                     head_script w0 (heads_made w0 + i) = HeadHTTPError code)
              /\ head_script w0 (heads_made w0 + n) = HeadFailure).
Proof.
  intros Hlen H. cbv zeta. split; [| split].
  - change 5 with (4 + 1) in H. rewrite next_answers_app in H.
    apply app_inj_1 in H as [Herr Hfin];
      [| by rewrite next_answers_length, length_map].
    unfold next_answers in Hfin. simpl in Hfin. injection Hfin as Hfin.
    rewrite Nat.add_0_r in Hfin.
    unfold verify_archive_upload, c_retries_allowed.
    change 5 with (4 + 1) at 1. rewrite <- Hlen at 1.
    rewrite verify_while_errors by (by rewrite Hlen).
    rewrite Hlen. cbn [verify_while]. unfold urlopen_head.
    cbn [head_script heads_made extend set_utcnow set_heads_made]. rewrite Hfin.
    destruct w, final; unfold timedelta_seconds; world_eq.
  - intros w0. unfold verify_archive_upload.
    destruct (verify_while_script c_retries_allowed 0
                (archive_url youtube_id filename) w0) as (codes0 & Hscript & Hnow & Hshape).
    exists codes0. cbv zeta in Hnow, Hshape |- *. unfold c_retries_allowed in *.
    split; [done |]. split; [done |].
    destruct Hshape as [(Hl & Hres & Htr & Hh) | Hshape]; [| by right].
    left. rewrite Hh, Hl. done.
  - intros w0. unfold verify_archive_upload.
    destruct (verify_while_script c_retries_allowed 0
                (archive_url youtube_id filename) w0) as (codes0 & Hscript & _ & Hshape).
    cbv zeta in Hshape. unfold c_retries_allowed in *.
    assert (forall i, i < length codes0 -> exists code,
              head_script w0 (heads_made w0 + i) = HeadHTTPError code) as Hbefore.
    { intros i Hi.
      assert (nth_error (next_answers (head_script w0) (heads_made w0) (length codes0)) i
              = Some (head_script w0 (heads_made w0 + i))) as Hnth.
      { unfold next_answers. rewrite nth_error_map, nth_error_seq.
        apply Nat.ltb_lt in Hi. by rewrite Hi. }
      rewrite Hscript, nth_error_map in Hnth.
      destruct (nth_error codes0 i) as [code|]; [| done].
      exists code. by injection Hnth. }
    split.
    + intros [e He].
      destruct Hshape as [(_ & Hres & _) | (Hl & Hres & _)]; [congruence |].
      exists (length codes0). split; [done |]. split; [done |].
      destruct (head_script w0 (heads_made w0 + length codes0)); [congruence | done | done].
    + intros (n & Hn & Herrs & Hfail).
      destruct Hshape as [(Hl & _) | (Hl & Hres & _)].
      * destruct (Hbefore n) as [code Hcode]; [lia | congruence].
      * destruct (lt_eq_lt_dec n (length codes0)) as [[Hlt | ->] | Hgt].
        -- destruct (Hbefore n Hlt) as [code Hcode]. congruence.
        -- rewrite Hfail in Hres. eauto.
        -- destruct (Herrs (length codes0) Hgt) as [code Hcode].
           by rewrite Hcode in Hres.
Qed.

(** C2 fails as stated: an error of the HEAD request that carries no HTTP
    status is not retried.  When it is the fifth error in a row, after four
    HTTP errors, the function does not return False but raises; when it is
    the first answer, the function raises after one request, without a
    second attempt and without a sleep. *)
Lemma verification_failure_is_not_retried :
  let w4 := Scenario.abc123 (timedelta_hours 2) Scenario.always_ok
              (Scenario.connection_lost 4) in
  let w0 := Scenario.abc123 (timedelta_hours 2) Scenario.always_ok
              (Scenario.connection_lost 0) in
  (forall i, i < 5 -> forall code, head_script w4 i <> HeadResponse code)
  /\ fst (verify_archive_upload "abc123" "abc123.mp4" w4) = Raise Uncaught
  /\ fst (verify_archive_upload "abc123" "abc123.mp4" w4) <> Return false
  /\ heads_made (snd (verify_archive_upload "abc123" "abc123.mp4" w4)) = 5
  /\ fst (verify_archive_upload "abc123" "abc123.mp4" w0) = Raise Uncaught
  /\ heads_made (snd (verify_archive_upload "abc123" "abc123.mp4" w0)) = 1
  /\ utcnow (snd (verify_archive_upload "abc123" "abc123.mp4" w0)) = utcnow w0.
Proof.
  cbv zeta. split.
  - intros i Hi code. cbn [head_script Scenario.abc123].
    unfold Scenario.connection_lost. by destruct (i <? 4)%nat.
  - assert (fst (verify_archive_upload "abc123" "abc123.mp4"
                   (Scenario.abc123 (timedelta_hours 2) Scenario.always_ok
                      (Scenario.connection_lost 4))) = Raise Uncaught) as H
      by (by vm_compute).
    split; [exact H |]. split; [by rewrite H |]. by vm_compute.
Qed.

Lemma upload_retry_budget_witness :
  fst (upload_with_retries "KA-converted-abc123" "abc123.mp4"
         (Scenario.abc123 (timedelta_hours 2) (Scenario.slow_down 9) Scenario.always_200))
  = Normal tt
  /\ puts_made (snd (upload_with_retries "KA-converted-abc123" "abc123.mp4"
         (Scenario.abc123 (timedelta_hours 2) (Scenario.slow_down 9) Scenario.always_200)))
     = 10.
Proof.
  destruct (upload_retry_budget "KA-converted-abc123" "abc123.mp4"
              (Scenario.abc123 (timedelta_hours 2) (Scenario.slow_down 9) Scenario.always_200)
              (repeat (503, "Slow Down") 9) PutOk eq_refl eq_refl) as [H1 H2].
  split; [by rewrite H1 | exact H2].
Defined.

Lemma verification_retry_budget_witness :
  fst (verify_archive_upload "abc123" "abc123.mp4"
         (Scenario.abc123 (timedelta_hours 2) Scenario.always_ok (Scenario.not_found 4)))
  = Return true.
Proof.
  destruct (verification_retry_budget "abc123" "abc123.mp4"
              (Scenario.abc123 (timedelta_hours 2) Scenario.always_ok (Scenario.not_found 4))
              [404; 404; 404; 404] (HeadResponse 200) eq_refl eq_refl) as [H1 _].
  by rewrite H1.
Defined.

(** ** The verification of the uploads *)

Lemma verify_archive_upload_not_normal (youtube_id filename : string) (w : world) (a : unit) :
  fst (verify_archive_upload youtube_id filename w) <> Normal a.
Proof.
  unfold verify_archive_upload.
  destruct (verify_while_shape c_retries_allowed 0 (archive_url youtube_id filename) w)
    as (codes & [(_ & H & _) | (_ & [[code H] | H] & _)]); cbv zeta in H; by rewrite H.
Qed.

(** Every call of the verification sends a request for its url. *)
Lemma verify_archive_upload_requests (youtube_id filename : string) (w : world) :
  exists t, trace (snd (verify_archive_upload youtube_id filename w))
            = trace w ++ HeadRequest (archive_url youtube_id filename) :: t.
Proof.
  unfold verify_archive_upload.
  destruct (verify_while_shape c_retries_allowed 0 (archive_url youtube_id filename) w)
    as (codes & H).
  cbv zeta in H.
  destruct H as [(Hl & _ & -> & _) | (_ & _ & -> & _)];
    destruct codes as [|code codes]; cbn [failed_head_events app] in *; eauto.
  discriminate Hl.
Qed.

Lemma verify_uploads_verified (youtube_id : string) (names : list string) (w w' : world) :
  verified_in_turn youtube_id names w w' ->
  verify_uploads youtube_id names w = (Normal tt, w').
Proof.
  induction 1 as [w | n names w w1 w2 Hv _ IH]; [done |].
  cbn [verify_uploads]. rewrite Hv. unfold bind, logger. exact IH.
Qed.

Lemma verify_uploads_failed (youtube_id : string) (done : list string) (n : string)
    (rest : list string) (w w1 w2 : world) :
  verified_in_turn youtube_id done w w1 ->
  verify_archive_upload youtube_id n w1 = (Return false, w2) ->
  verify_uploads youtube_id (done ++ n :: rest) w
  = (Return false, emit (Log Error (MsgUnableToVerify youtube_id n)) w2).
Proof.
  induction 1 as [w | n' names w w1' w2' Hv _ IH]; intros Hn.
  - cbn [app verify_uploads]. by rewrite Hn.
  - cbn [app verify_uploads]. rewrite Hv. unfold bind, logger. by apply IH.
Qed.

Lemma verify_uploads_spec (youtube_id : string) (names : list string) :
  forall w : world,
  match verify_uploads youtube_id names w with
  | (Normal _, w') => verified_in_turn youtube_id names w w'
  | (Return b, w') =>
      b = false
      /\ exists done n rest w1 w2,
           names = done ++ n :: rest
           /\ verified_in_turn youtube_id done w w1
           /\ verify_archive_upload youtube_id n w1 = (Return false, w2)
           /\ w' = emit (Log Error (MsgUnableToVerify youtube_id n)) w2
  | (Raise e, w') =>
      exists done n rest w1,
        names = done ++ n :: rest
        /\ verified_in_turn youtube_id done w w1
        /\ verify_archive_upload youtube_id n w1 = (Raise e, w')
  end.
Proof.
  induction names as [|n names IH]; intros w.
  - simpl. constructor.
  - cbn [verify_uploads].
    pose proof (verify_archive_upload_not_normal youtube_id n w) as Hnn.
    destruct (verify_archive_upload youtube_id n w) as [[a | [] | e] w1] eqn:Hv.
    + by destruct (Hnn a).
    + unfold bind, logger. simpl.
      specialize (IH (emit (Log Error (MsgVerified youtube_id n)) w1)).
      destruct (verify_uploads youtube_id names _) as [[a | b | e] w'].
      * by eapply verified_cons.
      * destruct IH as (-> & done & n' & rest & w2 & w3 & -> & Hd & Hn & ->).
        split; [done |]. exists (n :: done), n', rest, w2, w3.
        repeat split; try done. by eapply verified_cons.
      * destruct IH as (done & n' & rest & w2 & -> & Hd & Hn).
        exists (n :: done), n', rest, w2.
        repeat split; try done. by eapply verified_cons.
    + unfold bind, logger, return_. simpl. split; [done |].
      exists [], n, names, w, w1. repeat split; try done. constructor.
    + exists [], n, names, w. repeat split; try done. constructor.
Qed.

Lemma verify_uploads_raised (youtube_id : string) (done : list string) (n : string)
    (rest : list string) (w w1 w2 : world) (e : exn) :
  verified_in_turn youtube_id done w w1 ->
  verify_archive_upload youtube_id n w1 = (Raise e, w2) ->
  verify_uploads youtube_id (done ++ n :: rest) w = (Raise e, w2).
Proof.
  induction 1 as [w | n' names w w1' w2' Hv _ IH]; intros Hn.
  - cbn [app verify_uploads]. by rewrite Hn.
  - cbn [app verify_uploads]. rewrite Hv. unfold bind, logger. by apply IH.
Qed.

Lemma await_and_verify_unfold (youtube_id : string) (uploaded : list string) (w : world) :
  await_and_verify youtube_id uploaded w
  = match verify_uploads youtube_id uploaded (propagation_delay w) with
    | (Normal _, w') => (Return true, w')
    | (Return b, w') => (Return b, w')
    | (Raise e, w') => (Raise e, w')
    end.
Proof.
  unfold await_and_verify, bind, logger, sleep, return_.
  replace (emit (Sleep 10) _) with (propagation_delay w)
    by (unfold propagation_delay; destruct w; world_eq).
  by destruct (verify_uploads _ _ _) as [[] ?].
Qed.

(** C3, as the code has it.  After the wait the uploads are verified in the
    order of their upload, each at most once, and the verification stops at
    the first upload that does not verify.  The function returns True
    exactly when every upload was verified, once, and verified; it returns
    False exactly when one upload did not verify after those before it did,
    and then the uploads after it are not verified at all. *)
Theorem verification_verdict (youtube_id : string) (uploaded : list string) (w : world) :
  (forall w', await_and_verify youtube_id uploaded w = (Return true, w')
     <-> verified_in_turn youtube_id uploaded (propagation_delay w) w')
  /\ (forall w', await_and_verify youtube_id uploaded w = (Return false, w')
        <-> exists done n rest w1 w2,
              uploaded = done ++ n :: rest
              /\ verified_in_turn youtube_id done (propagation_delay w) w1
              /\ verify_archive_upload youtube_id n w1 = (Return false, w2)
              /\ w' = emit (Log Error (MsgUnableToVerify youtube_id n)) w2)
  /\ (forall a w', await_and_verify youtube_id uploaded w <> (Normal a, w')).
Proof.
  rewrite await_and_verify_unfold.
  pose proof (verify_uploads_spec youtube_id uploaded (propagation_delay w)) as Hspec.
  split; [| split].
  - intros w'. split.
    + destruct (verify_uploads _ _ _) as [[a | b | e] w1]; intros [= ?]; subst.
      * done.
      * by destruct Hspec as [[=] _].
    + intros H. by rewrite (verify_uploads_verified _ _ _ _ H).
  - intros w'. split.
    + destruct (verify_uploads _ _ _) as [[a | b | e] w1]; intros [= ?]; subst.
      by destruct Hspec as [_ H].
    + intros (done & n & rest & w1 & w2 & -> & Hd & Hn & ->).
      by rewrite (verify_uploads_failed _ _ _ _ _ _ _ Hd Hn).
  - intros a w'. by destruct (verify_uploads _ _ _) as [[? | ? | ?] ?].
Qed.

(** C3 fails as stated: both files of the video are transferred, the first
    does not verify, the function returns False, and no request is ever
    sent for the second, so its verification was not invoked. *)
Lemma verification_not_invoked_after_failure :
  let res := upload_converted_to_archive "abc123" ["mp4"]
               (Scenario.abc123 (timedelta_hours 2) Scenario.always_ok Scenario.always_404) in
  fst res = Return false
  /\ archive (snd res) = [("KA-converted-abc123", "abc123.mp4");
                          ("KA-converted-abc123", "abc123.png")]
  /\ head_requests (archive_url "abc123" "abc123.mp4") (trace (snd res)) = 5
  /\ head_requests (archive_url "abc123" "abc123.png") (trace (snd res)) = 0.
Proof. vm_compute. done. Qed.

(** ** The readiness gate of the upload *)

(** The loop only logs; it ends normally only if every key passes. *)
Lemma gather_source_keys_shape (youtube_id : string) (keys : list s3key) :
  forall (skf : gmap string (list s3key)) (w : world),
  exists evs,
    forallb is_log evs = true
    /\ snd (gather_source_keys youtube_id keys skf w) = extend evs w
    /\ match fst (gather_source_keys youtube_id keys skf w) with
       | Normal _ => forallb (passes_gate youtube_id (utcnow w)) keys = true
       | Return b => b = false
       | Raise e => e = AssertionError
       end.
Proof.
  induction keys as [|key keys IH]; intros skf w.
  - exists []. simpl. by rewrite extend_nil.
  - cbn [gather_source_keys forallb]. unfold passes_gate at 1.
    destruct (re_match re_video_key_name (name key)) as [m|] eqn:Em.
    + unfold bind, assert, datetime_utcnow, logger, return_, ret, raise, is_ready.
      destruct (String.eqb (group m 1) youtube_id); simpl.
      * destruct (too_recent (utcnow w) (last_modified key)); simpl.
        -- by exists [Log Error (MsgStillUploading (group m 2) youtube_id (last_modified key))].
        -- apply IH.
      * exists []. by rewrite extend_nil.
    + unfold bind. simpl.
      destruct (re_match re_legacy_video_key_name (name key)).
      * unfold ret. apply IH.
      * unfold logger.
        destruct (IH skf (emit (Log Info (MsgUnrecognizedFile (name key))) w))
          as (evs & Hlog & Hw & Hres).
        exists (Log Info (MsgUnrecognizedFile (name key)) :: evs).
        rewrite Hw. split; [done |]. split; [| done].
        by rewrite emit_extend, extend_extend.
Qed.








(** ** Legacy migration *)

Lemma copy_legacy_keys_step (youtube_id : string) (key : s3key) (rest : list s3key)
    (w : world) :
  copy_legacy_keys youtube_id (key :: rest) w
  = if legacy_shaped youtube_id key
    then copy_legacy_keys youtube_id rest
           (extend (copy_events youtube_id key)
              (set_converted (store_key (copied_key (utcnow w) youtube_id key) (converted w)) w))
    else (Raise AssertionError, w).
Proof.
  cbn [copy_legacy_keys]. unfold legacy_shaped, copy_events, copied_key.
  unfold new_location, legacy_relative_path.
  destruct (re_match re_legacy_video_key_name (name key)) as [m|]; [| done].
  unfold bind, assert, logger, key_copy, ret, raise.
  destruct (String.eqb (group m 1) youtube_id); [| done].
  cbn beta iota. f_equal. world_eq.
Qed.

Lemma copy_legacy_keys_all (youtube_id : string) (keys : list s3key) :
  forall w : world,
  forallb (legacy_shaped youtube_id) keys = true ->
  copy_legacy_keys youtube_id keys w
  = (Normal tt,
     extend (flat_map (copy_events youtube_id) keys)
       (set_converted (store_copies (utcnow w) youtube_id keys (converted w)) w)).
Proof.
  induction keys as [|key keys IH]; intros w H.
  - simpl. unfold ret. f_equal. destruct w. world_eq.
  - cbn [forallb] in H. apply andb_prop in H as [Hk H].
    rewrite copy_legacy_keys_step, Hk, IH by done.
    f_equal. destruct w. unfold store_copies. world_eq.
Qed.

Lemma copy_legacy_keys_fail_fast (youtube_id : string) (done : list s3key) :
  forall (bad : s3key) (rest : list s3key) (w : world),
  forallb (legacy_shaped youtube_id) done = true ->
  legacy_shaped youtube_id bad = false ->
  copy_legacy_keys youtube_id (done ++ bad :: rest) w
  = (Raise AssertionError,
     extend (flat_map (copy_events youtube_id) done)
       (set_converted (store_copies (utcnow w) youtube_id done (converted w)) w)).
Proof.
  induction done as [|key done IH]; intros bad rest w H Hbad.
  - cbn [app]. rewrite copy_legacy_keys_step, Hbad.
    f_equal. destruct w. world_eq.
  - cbn [forallb] in H. apply andb_prop in H as [Hk H].
    cbn [app]. rewrite copy_legacy_keys_step, Hk, IH by done.
    f_equal. destruct w. unfold store_copies. world_eq.
Qed.

(** *** The store *)

Lemma store_key_keeps (copy k : s3key) (b : list s3key) :
  In k b -> name k <> name copy -> In k (store_key copy b).
Proof.
  intros Hin Hne. unfold store_key. apply in_or_app. left.
  apply filter_In. split; [done |].
  apply negb_true_iff. by apply String.eqb_neq.
Qed.

Lemma store_key_stores (copy : s3key) (b : list s3key) : In copy (store_key copy b).
Proof. unfold store_key. apply in_or_app. right. by left. Qed.

Lemma store_copies_keeps (now : datetime) (youtube_id : string) (keys : list s3key) :
  forall (b : list s3key) (k : s3key),
  In k b ->
  (forall key, In key keys -> name k <> new_location youtube_id key) ->
  In k (store_copies now youtube_id keys b).
Proof.
  induction keys as [|key keys IH]; intros b k Hin Hne; [done |].
  unfold store_copies. cbn [fold_left]. apply IH.
  - apply store_key_keeps; [done |]. apply Hne. by left.
  - intros key' Hin'. apply Hne. by right.
Qed.

Lemma store_copies_stores (now : datetime) (youtube_id : string) (keys : list s3key) :
  forall (b : list s3key) (key : s3key),
  In key keys ->
  NoDup (map (new_location youtube_id) keys) ->
  In (copied_key now youtube_id key) (store_copies now youtube_id keys b).
Proof.
  induction keys as [|k keys IH]; intros b key Hin Hnd; [done |].
  cbn [map] in Hnd. apply NoDup_cons in Hnd as [Hfresh Hnd].
  unfold store_copies. cbn [fold_left]. destruct Hin as [-> | Hin].
  - apply store_copies_keeps; [apply store_key_stores |].
    intros key' Hin' Heq. apply Hfresh. simpl in Heq. rewrite Heq.
    apply list_elem_of_In, in_map, Hin'.
  - by apply IH.
Qed.

Lemma store_copies_names (now : datetime) (youtube_id : string) (keys : list s3key) :
  forall (b : list s3key) (key : s3key),
  In key keys ->
  exists k', In k' (store_copies now youtube_id keys b)
             /\ name k' = new_location youtube_id key.
Proof.
  assert (forall keys b n,
            (exists k', In k' b /\ name k' = n) ->
            exists k', In k' (store_copies now youtube_id keys b) /\ name k' = n) as Hkeep.
  { clear keys. induction keys as [|k keys IH]; intros b n H; [done |].
    unfold store_copies. cbn [fold_left]. apply IH.
    destruct H as (k' & Hin & Hn).
    destruct (String.eqb (name k') (new_location youtube_id k)) eqn:E.
    - apply String.eqb_eq in E. exists (copied_key now youtube_id k).
      split; [apply store_key_stores | simpl; congruence].
    - exists k'. split; [| done]. apply store_key_keeps; [done |].
      by apply String.eqb_neq. }
  induction keys as [|k keys IH]; intros b key Hin; [done |].
  unfold store_copies. cbn [fold_left]. destruct Hin as [-> | Hin].
  - apply Hkeep. exists (copied_key now youtube_id key).
    split; [apply store_key_stores | done].
  - by apply IH.
Qed.

(** A new location is not under the legacy prefix: after the id comes a
    dot, not a slash. *)
Lemma new_location_not_legacy (youtube_id path : string) :
  Str.startswith (youtube_id +:+ "/") (youtube_id +:+ ".mp4/" +:+ path) = false.
Proof.
  induction youtube_id as [|c y IH]; [done |].
  rewrite !append_cons. simpl. by rewrite Ascii.eqb_refl.
Qed.

Lemma take_while_all (p : ascii -> bool) (s : string) :
  Str.all p s = true -> Str.take_while p s = s /\ Str.drop_while p s = "".
Proof.
  induction s as [|c s IH]; simpl; [done |].
  intros [-> H]%andb_prop. destruct (IH H) as [-> ->]. done.
Qed.

(** A name made of the id, a slash and a path without a newline is
    legacy-shaped, and the path is what the pattern recovers. *)
Lemma legacy_key_shaped (youtube_id path : string) :
  nonempty_all is_word_or_dash youtube_id = true ->
  Str.all is_dot path = true ->
  re_match re_legacy_video_key_name (youtube_id +:+ "/" +:+ path)
  = Some (MatchObject (youtube_id +:+ "/" +:+ path) [youtube_id; path]).
Proof.
  intros [Hid (c & i & Ei)]%nonempty_all_inv Hpath.
  rewrite re_legacy_video_key_name_match. cbv zeta.
  change (youtube_id +:+ "/" +:+ path) with (youtube_id +:+ String "/" path).
  rewrite take_while_append, drop_while_append by done.
  destruct (take_while_all _ _ Hpath) as [-> ->].
  rewrite Ei. done.
Qed.

(** Any name that the legacy pattern accepts is its two groups around a
    slash; a newline that ends the name is in neither group. *)
Lemma legacy_match_name (key_name : string) (m : match_object) :
  re_match re_legacy_video_key_name key_name = Some m ->
  key_name = group m 1 +:+ "/" +:+ group m 2
  \/ key_name = group m 1 +:+ "/" +:+ group m 2 +:+ String newline "".
Proof.
  rewrite re_legacy_video_key_name_match. cbv zeta.
  pose proof (take_drop_while is_word_or_dash key_name) as Hkey.
  destruct (Str.take_while is_word_or_dash key_name) as [|c i]; [done |].
  destruct (Str.drop_while is_word_or_dash key_name) as [|d r1]; [done |].
  destruct (Ascii.eqb "/" d) eqn:Eslash.
  2: { destruct d as [[] [] [] [] [] [] [] []]; done. }
  apply Ascii.eqb_eq in Eslash as <-.
  pose proof (take_drop_while is_dot r1) as Hr1.
  destruct (Str.drop_while is_dot r1) as [|e r2] eqn:Er2.
  - intros [= <-]. left. unfold group. simpl nth.
    rewrite append_empty_r in Hr1. by rewrite Hr1, <- Hkey.
  - destruct r2; cbn [at_eol]; [| done].
    destruct (Ascii.eqb e newline) eqn:Ee; [| done].
    apply Ascii.eqb_eq in Ee as ->.
    intros [= <-]. right. unfold group. simpl nth.
    by rewrite Hr1, <- Hkey.
Qed.

Lemma copy_legacy_unfold (youtube_id : string) (w : world) :
  copy_legacy_content_to_new_location youtube_id w
  = copy_legacy_keys youtube_id
      (List.filter (fun k => Str.startswith (youtube_id +:+ "/") (name k)) (converted w))
      (emit (ListKeys (youtube_id +:+ "/")) w).
Proof. done. Qed.

(** X23. The migration lists the keys under the legacy prefix and takes
    them in turn.  When all of them are legacy-shaped with the given id, it
    ends normally with one copy per key, inside the converted bucket, to the
    id followed by .mp4/ and the path that the legacy pattern recovers, with
    the ACL preserved; every source object is still in the bucket, an
    object is there under each destination name, and when the destination
    names are distinct each copy is there with the ACL of its source.  A
    key that is not legacy-shaped, or has another id, fails an assertion at
    once: the keys before it were copied, nothing is done after it.  For
    an id of [[\w-]] characters, a key made of the prefix and a path without
    a newline is legacy-shaped and the recovered path is that path. *)
Theorem legacy_migration (youtube_id : string) (w : world) :
  let prefix := youtube_id +:+ "/" in
  let keys := List.filter (fun k => Str.startswith prefix (name k)) (converted w) in
  let res := copy_legacy_content_to_new_location youtube_id w in
  (forallb (legacy_shaped youtube_id) keys = true ->
     fst res = Normal tt
     /\ trace (snd res) = trace w ++ ListKeys prefix :: flat_map (copy_events youtube_id) keys
     /\ archive (snd res) = archive w
     /\ (forall k, In k (converted w) -> Str.startswith prefix (name k) = true ->
           In k (converted (snd res)))
     /\ (forall k, In k keys ->
           exists k', In k' (converted (snd res))
                      /\ name k' = new_location youtube_id k)
     /\ (NoDup (map (new_location youtube_id) keys) ->
         forall k, In k keys ->
           In (copied_key (utcnow w) youtube_id k) (converted (snd res))))
  /\ (forall done bad rest,
        keys = done ++ bad :: rest ->
        forallb (legacy_shaped youtube_id) done = true ->
        legacy_shaped youtube_id bad = false ->
        fst res = Raise AssertionError
        /\ trace (snd res)
           = trace w ++ ListKeys prefix :: flat_map (copy_events youtube_id) done)
  /\ (forall k path,
        nonempty_all is_word_or_dash youtube_id = true ->
        name k = prefix +:+ path ->
        Str.all is_dot path = true ->
        legacy_shaped youtube_id k = true
        /\ new_location youtube_id k = youtube_id +:+ ".mp4/" +:+ path).
Proof.
  cbv zeta. rewrite copy_legacy_unfold.
  set (keys := List.filter _ (converted w)).
  split; [| split].
  - intros Hall. rewrite copy_legacy_keys_all by done. simpl.
    split; [done |]. split; [by rewrite <- app_assoc |]. split; [done |].
    split; [| split].
    + intros k Hin Hpre. apply store_copies_keeps; [done |].
      intros key _ Heq. unfold new_location in Heq.
      rewrite Heq, new_location_not_legacy in Hpre. done.
    + intros k Hin. by apply store_copies_names.
    + intros Hnd k Hin. by apply store_copies_stores.
  - intros done bad rest -> Hdone Hbad.
    rewrite copy_legacy_keys_fail_fast by done. simpl.
    split; [done |]. by rewrite <- app_assoc.
  - intros k path Hid Hname Hpath.
    unfold legacy_shaped, new_location, legacy_relative_path.
    rewrite Hname, append_assoc, legacy_key_shaped by done.
    unfold group. simpl. by rewrite String.eqb_refl.
Qed.

Lemma legacy_migration_witness :
  fst (copy_legacy_content_to_new_location "DK1lCc9b7bg" Scenario.legacy) = Normal tt
  /\ In (S3Key "DK1lCc9b7bg.mp4/DK1lCc9b7bg.mp4" (timedelta_hours 5) "public-read")
        (converted (snd (copy_legacy_content_to_new_location "DK1lCc9b7bg" Scenario.legacy)))
  /\ In (S3Key "DK1lCc9b7bg.mp4/DK1lCc9b7bg.png" (timedelta_hours 5) "private")
        (converted (snd (copy_legacy_content_to_new_location "DK1lCc9b7bg" Scenario.legacy)))
  /\ In (S3Key "DK1lCc9b7bg/DK1lCc9b7bg.mp4" 0%Z "public-read")
        (converted (snd (copy_legacy_content_to_new_location "DK1lCc9b7bg" Scenario.legacy))).
Proof.
  destruct (legacy_migration "DK1lCc9b7bg" Scenario.legacy) as [Hall _].
  destruct Hall as (Hres & _ & _ & Hkept & _ & Hcopied); [reflexivity |].
  assert (NoDup (map (new_location "DK1lCc9b7bg")
                   (List.filter (fun k => Str.startswith ("DK1lCc9b7bg" +:+ "/") (name k))
                                (converted Scenario.legacy)))) as Hnd
    by (apply (bool_decide_unpack _); vm_compute; exact I).
  split; [exact Hres |]. split; [| split].
  - apply (Hcopied Hnd (S3Key "DK1lCc9b7bg/DK1lCc9b7bg.mp4" 0%Z "public-read")).
    vm_compute. tauto.
  - apply (Hcopied Hnd (S3Key "DK1lCc9b7bg/DK1lCc9b7bg.png" 0%Z "private")).
    vm_compute. tauto.
  - apply Hkept; [vm_compute; tauto | reflexivity].
Defined.

(** C8, on the failing input.  A newline that ends a key name is outside
    the groups of the legacy pattern, whose [$] also matches before it.  With
    the legacy keys DK1lCc9b7bg/DK1lCc9b7bg.mp4 (public-read) and the same
    name followed by a newline (private) under the prefix, the migration
    ends normally, and both keys are copied to DK1lCc9b7bg.mp4/DK1lCc9b7bg.mp4:
    no object gets the name that keeps the newline of the relative path,
    and the copy of the first key, with its ACL, is replaced by the copy of
    the second. *)
Theorem legacy_migration_drops_final_newline :
  let youtube_id := "DK1lCc9b7bg" in
  let plain := "DK1lCc9b7bg/DK1lCc9b7bg.mp4" in
  let odd := plain +:+ String newline "" in
  let dest := "DK1lCc9b7bg.mp4/DK1lCc9b7bg.mp4" in
  let res := copy_legacy_content_to_new_location youtube_id Scenario.final_newline in
  List.filter (fun k => Str.startswith (youtube_id +:+ "/") (name k))
              (converted Scenario.final_newline)
  = [S3Key plain 0%Z "public-read"; S3Key odd 0%Z "private"]
  /\ Str.drop (String.length (youtube_id +:+ "/")) odd
     = "DK1lCc9b7bg.mp4" +:+ String newline ""
  /\ fst res = Normal tt
  /\ trace (snd res)
     = [ListKeys (youtube_id +:+ "/");
        Log Info (MsgCopyingLegacy plain dest);
        CopyKey plain converted_bucket_name dest true;
        Log Info (MsgCopyingLegacy odd dest);
        CopyKey odd converted_bucket_name dest true]
  /\ converted (snd res)
     = [S3Key plain 0%Z "public-read"; S3Key odd 0%Z "private";
        S3Key dest (timedelta_hours 5) "private"]
  /\ (forall k, In k (converted (snd res)) ->
        name k <> youtube_id +:+ ".mp4/" +:+ "DK1lCc9b7bg.mp4" +:+ String newline "")
  /\ ~ In (S3Key dest (timedelta_hours 5) "public-read") (converted (snd res)).
Proof.
  cbv zeta.
  assert (converted (snd (copy_legacy_content_to_new_location "DK1lCc9b7bg"
                            Scenario.final_newline))
          = [S3Key "DK1lCc9b7bg/DK1lCc9b7bg.mp4" 0%Z "public-read";
             S3Key ("DK1lCc9b7bg/DK1lCc9b7bg.mp4" +:+ String newline "") 0%Z "private";
             S3Key "DK1lCc9b7bg.mp4/DK1lCc9b7bg.mp4" (timedelta_hours 5) "private"])
    as Hbucket by (by vm_compute).
  split; [by vm_compute |]. split; [by vm_compute |]. split; [by vm_compute |].
  split; [by vm_compute |]. split; [exact Hbucket |]. rewrite Hbucket. split.
  - intros k [<- | [<- | [<- | []]]]; by vm_compute.
  - intros [H | [H | [H | []]]]; by vm_compute in H.
Qed.

(** ** The scenarios, run *)

Example current_key_matches :
  re_match re_video_key_name "DK1lCc9b7bg.mp4/DK1lCc9b7bg.png"
  = Some (MatchObject "DK1lCc9b7bg.mp4/" ["DK1lCc9b7bg"; "mp4"]).
Proof. reflexivity. Qed.

Example legacy_key_matches :
  re_match re_legacy_video_key_name "Dpo_-GrMpNE/Dpo_-GrMpNE.mp4"
  = Some (MatchObject "Dpo_-GrMpNE/Dpo_-GrMpNE.mp4" ["Dpo_-GrMpNE"; "Dpo_-GrMpNE.mp4"]).
Proof. reflexivity. Qed.

Example current_key_is_not_legacy :
  re_match re_legacy_video_key_name "DK1lCc9b7bg.mp4/" = None.
Proof. reflexivity. Qed.

(** Both files of the format are uploaded and verified. *)
Example upload_succeeds :
  let res := upload_converted_to_archive "abc123" ["mp4"]
               (Scenario.abc123 (timedelta_hours 2) Scenario.always_ok Scenario.always_200) in
  fst res = Return true
  /\ archive (snd res) = [("KA-converted-abc123", "abc123.mp4");
                          ("KA-converted-abc123", "abc123.png")].
Proof. by vm_compute. Qed.

(** Nine server errors on the first file do not stop the upload. *)
Example upload_survives_nine_errors :
  let res := upload_converted_to_archive "abc123" ["mp4"]
               (Scenario.abc123 (timedelta_hours 2) (Scenario.slow_down 9) Scenario.always_200) in
  fst res = Return true /\ puts_made (snd res) = 11.
Proof. by vm_compute. Qed.

(** Ten server errors on the first file end the function with its
    exception; the second file is not tried. *)
Example upload_gives_up_after_ten_errors :
  let res := upload_converted_to_archive "abc123" ["mp4"]
               (Scenario.abc123 (timedelta_hours 2) (Scenario.slow_down 10) Scenario.always_200) in
  fst res = Raise GaveUp /\ puts_made (snd res) = 10 /\ archive (snd res) = [].
Proof. by vm_compute. Qed.

(** A format without source keys is reported before anything is fetched. *)
Example upload_source_missing :
  let res := upload_converted_to_archive "abc123" ["m3u8"]
               (Scenario.abc123 (timedelta_hours 2) Scenario.always_ok Scenario.always_200) in
  fst res = Return false
  /\ trace (snd res) = [ListKeys "abc123"; Log Error (MsgFormatNotFound "m3u8" "abc123")].
Proof. by vm_compute. Qed.

(** A newline that ends a legacy name is not part of the relative path. *)
Example legacy_key_final_newline :
  re_match re_legacy_video_key_name ("DK1lCc9b7bg/a.mp4" +:+ String newline "")
  = Some (MatchObject "DK1lCc9b7bg/a.mp4" ["DK1lCc9b7bg"; "a.mp4"]).
Proof. reflexivity. Qed.

(** * Further properties *)

(** ** The legacy pattern *)

Lemma classify_legacy_key_sound (key_name id path : string) :
  classify_legacy_key key_name = Some (id, path) ->
  nonempty_all is_word_or_dash id = true
  /\ Str.all is_dot path = true
  /\ (key_name = id +:+ "/" +:+ path
      \/ key_name = id +:+ "/" +:+ path +:+ String newline "").
Proof.
  unfold classify_legacy_key.
  destruct (re_match re_legacy_video_key_name key_name) as [m|] eqn:Em; [| done].
  intros [= <- <-]. split; [| split; [| by apply legacy_match_name]].
  - rewrite re_legacy_video_key_name_match in Em. cbv zeta in Em.
    pose proof (all_take_while is_word_or_dash key_name) as Hall.
    destruct (Str.take_while is_word_or_dash key_name) as [|c i]; [done |].
    destruct (Str.drop_while is_word_or_dash key_name) as [|d r1]; [done |].
    destruct (Ascii.eqb "/" d) eqn:Eslash.
    2: { destruct d as [[] [] [] [] [] [] [] []]; done. }
    apply Ascii.eqb_eq in Eslash as <-.
    destruct (at_eol _); [| done]. by injection Em as <-.
  - rewrite re_legacy_video_key_name_match in Em. cbv zeta in Em.
    destruct (Str.take_while is_word_or_dash key_name) as [|c i]; [done |].
    destruct (Str.drop_while is_word_or_dash key_name) as [|d r1]; [done |].
    destruct (Ascii.eqb "/" d) eqn:Eslash.
    2: { destruct d as [[] [] [] [] [] [] [] []]; done. }
    apply Ascii.eqb_eq in Eslash as <-.
    destruct (at_eol _); [| done]. injection Em as <-.
    unfold group. simpl nth. apply all_take_while.
Qed.

(** X1. A name made of an id of [[\w-]] characters, a slash and a path
    without a newline is classified as a legacy key with exactly that id and
    that path, and it is not a current key. *)
Theorem legacy_key_roundtrip (id path : string) :
  nonempty_all is_word_or_dash id = true ->
  Str.all is_dot path = true ->
  classify_legacy_key (id +:+ "/" +:+ path) = Some (id, path)
  /\ is_current_key (id +:+ "/" +:+ path) = false.
Proof.
  intros Hid Hpath.
  assert (classify_legacy_key (id +:+ "/" +:+ path) = Some (id, path)) as H.
  { unfold classify_legacy_key. by rewrite legacy_key_shaped. }
  split; [done |]. unfold is_current_key.
  destruct (patterns_exclusive (id +:+ "/" +:+ path)) as [-> | Hno]; [done |].
  unfold classify_legacy_key in H. by rewrite Hno in H.
Qed.

Lemma legacy_key_roundtrip_witness :
  classify_legacy_key "Dpo_-GrMpNE/Dpo_-GrMpNE.mp4" = Some ("Dpo_-GrMpNE", "Dpo_-GrMpNE.mp4").
Proof.
  apply (legacy_key_roundtrip "Dpo_-GrMpNE" "Dpo_-GrMpNE.mp4"); reflexivity.
Defined.

(** X2. Whatever name the legacy pattern accepts has an id of one or more
    [[\w-]] characters before its first slash and a path without a newline
    after it; the name is the id, the slash and the path, except that one
    newline at the very end of the name is dropped from the path. *)
Theorem legacy_key_shape (key_name id path : string) :
  classify_legacy_key key_name = Some (id, path) ->
  nonempty_all is_word_or_dash id = true
  /\ Str.all is_dot path = true
  /\ (key_name = id +:+ "/" +:+ path
      \/ key_name = id +:+ "/" +:+ path +:+ String newline "").
Proof. apply classify_legacy_key_sound. Qed.

Lemma legacy_key_shape_witness :
  Str.all is_dot "a.mp4" = true
  /\ ("DK1lCc9b7bg/a.mp4" +:+ String newline "" = "DK1lCc9b7bg" +:+ "/" +:+ "a.mp4"
      \/ "DK1lCc9b7bg/a.mp4" +:+ String newline ""
         = "DK1lCc9b7bg" +:+ "/" +:+ "a.mp4" +:+ String newline "").
Proof.
  apply (legacy_key_shape ("DK1lCc9b7bg/a.mp4" +:+ String newline "") "DK1lCc9b7bg" "a.mp4").
  reflexivity.
Defined.

(** ** The inventory *)

Lemma classify_video_key_match (key id fmt : string) :
  (exists path, classify_video_key key = Some (id, fmt, path))
  <-> exists m, re_match re_video_key_name key = Some m
                /\ group m 1 = id /\ group m 2 = fmt.
Proof.
  unfold classify_video_key. split.
  - intros [path H]. destruct (re_match re_video_key_name key) as [m|]; [| done].
    injection H as <- <- _. by exists m.
  - intros (m & -> & <- & <-). eauto.
Qed.

Lemma list_converted_formats_step_current (key : string) (m : match_object)
    (cv : gmap string (gset string)) (lk : gset string) (logs : list event) :
  re_match re_video_key_name key = Some m ->
  exists cv',
    list_converted_formats_step (cv, lk, logs) key = (cv', lk, logs)
    /\ (forall id fmt,
          fmt ∈ default ∅ (cv' !! id)
          <-> fmt ∈ default ∅ (cv !! id) \/ (id = group m 1 /\ fmt = group m 2))
    /\ (forall id, is_Some (cv' !! id) <-> is_Some (cv !! id) \/ id = group m 1).
Proof.
  intros Em. unfold list_converted_formats_step. rewrite Em.
  pose proof (defaultdict_getitem_fst ∅ cv (group m 1)) as Hfst.
  destruct (defaultdict_getitem ∅ cv (group m 1)) as [formats d] eqn:Ed.
  simpl in Hfst. subst formats.
  assert (forall k, k <> group m 1 -> d !! k = cv !! k) as Hd.
  { intros k Hk. unfold defaultdict_getitem in Ed.
    destruct (cv !! group m 1); injection Ed as <-; [done |].
    by rewrite lookup_insert_ne. }
  eexists. split; [done |]. split.
  - intros id fmt. destruct (decide (id = group m 1)) as [-> | Hne].
    + rewrite lookup_insert_eq. simpl. rewrite elem_of_union, elem_of_singleton.
      tauto.
    + rewrite lookup_insert_ne, Hd by done. tauto.
  - intros id. destruct (decide (id = group m 1)) as [-> | Hne].
    + rewrite lookup_insert_eq. split; [by right | by eexists].
    + rewrite lookup_insert_ne, Hd by done. tauto.
Qed.

Lemma list_converted_formats_step_other (key : string)
    (cv : gmap string (gset string)) (lk : gset string) (logs : list event) :
  re_match re_video_key_name key = None ->
  list_converted_formats_step (cv, lk, logs) key
  = (cv,
     if is_legacy_key key then lk ∪ {[key]} else lk,
     if is_legacy_key key then logs
     else logs ++ [Log Warning (MsgUnrecognizedKey key)]).
Proof.
  intros Em. unfold list_converted_formats_step, is_legacy_key. rewrite Em.
  by destruct (re_match re_legacy_video_key_name key).
Qed.

Lemma classify_video_key_groups (key : string) (m : match_object) :
  re_match re_video_key_name key = Some m ->
  forall id fmt,
    (exists path, classify_video_key key = Some (id, fmt, path))
    <-> id = group m 1 /\ fmt = group m 2.
Proof.
  intros Em id fmt. rewrite classify_video_key_match, Em. split.
  - by intros (m' & [= <-] & <- & <-).
  - intros [-> ->]. by exists m.
Qed.

Lemma classify_video_key_none (key : string) :
  re_match re_video_key_name key = None -> classify_video_key key = None.
Proof. intros Em. unfold classify_video_key. by rewrite Em. Qed.

(** The state after the loop of [list_converted_formats], from any state of
    the loop. *)
Lemma list_converted_formats_fold (listing : list string) :
  forall (cv : gmap string (gset string)) (lk : gset string) (logs : list event),
  let st := fold_left list_converted_formats_step listing (cv, lk, logs) in
  (forall id fmt,
     fmt ∈ default ∅ (fst (fst st) !! id)
     <-> fmt ∈ default ∅ (cv !! id)
         \/ exists key path, key ∈ listing /\ classify_video_key key = Some (id, fmt, path))
  /\ (forall id,
       is_Some (fst (fst st) !! id)
       <-> is_Some (cv !! id)
           \/ exists key fmt path,
                key ∈ listing /\ classify_video_key key = Some (id, fmt, path))
  /\ snd (fst st) = lk ∪ list_to_set (List.filter is_legacy_key listing)
  /\ snd st = logs ++ map (fun key => Log Warning (MsgUnrecognizedKey key))
                        (List.filter is_unrecognized_key listing).
Proof.
  induction listing as [|key listing IH]; intros cv lk logs.
  - simpl. split; [| split; [| split]].
    + intros id fmt. split; [by left |].
      intros [H | (key & path & Hin & _)]; [done | by apply elem_of_nil in Hin].
    + intros id. split; [by left |].
      intros [H | (key & fmt & path & Hin & _)]; [done | by apply elem_of_nil in Hin].
    + cbn [list_to_set]. by rewrite (right_id_L ∅ (∪)).
    + by rewrite app_nil_r.
  - cbn [fold_left List.filter]. unfold is_unrecognized_key, is_current_key.
    destruct (re_match re_video_key_name key) as [m|] eqn:Em.
    + destruct (list_converted_formats_step_current key m cv lk logs Em)
        as (cv' & -> & Hfmt & Hsome).
      pose proof (classify_video_key_groups key m Em) as Hk.
      assert (is_legacy_key key = false) as ->.
      { unfold is_legacy_key.
        destruct (patterns_exclusive key) as [H | ->]; [congruence | done]. }
      cbn [negb andb].
      destruct (IH cv' lk logs) as (IHfmt & IHsome & IHlk & IHlogs).
      cbv zeta in IHfmt, IHsome, IHlk, IHlogs.
      split; [| split; [| split]]; [| | done | done].
      * intros id fmt. rewrite IHfmt, Hfmt, <- Hk. split.
        -- intros [[H | [path H]] | (k & path & Hin & H)].
           ++ by left.
           ++ right. exists key, path. split; [apply list_elem_of_here | done].
           ++ right. exists k, path. split; [by apply list_elem_of_further | done].
        -- intros [H | (k & path & Hin & H)]; [by left; left |].
           apply elem_of_cons in Hin as [-> | Hin]; [left; right; eauto |].
           right. by exists k, path.
      * intros id. rewrite IHsome, Hsome. split.
        -- intros [[H | ->] | (k & fmt & path & Hin & H)].
           ++ by left.
           ++ right. destruct (proj2 (Hk (group m 1) (group m 2))) as [path H]; [done |].
              exists key, (group m 2), path. split; [apply list_elem_of_here | done].
           ++ right. exists k, fmt, path. split; [by apply list_elem_of_further | done].
        -- intros [H | (k & fmt & path & Hin & H)]; [by left; left |].
           apply elem_of_cons in Hin as [-> | Hin].
           ++ left. right. by apply (Hk id fmt); exists path.
           ++ right. by exists k, fmt, path.
    + rewrite (list_converted_formats_step_other key cv lk logs Em).
      pose proof (classify_video_key_none key Em) as Hnone.
      cbn [negb andb].
      match goal with |- context [fold_left _ listing (cv, ?lk', ?logs')] =>
        destruct (IH cv lk' logs') as (IHfmt & IHsome & IHlk & IHlogs) end.
      cbv zeta in IHfmt, IHsome, IHlk, IHlogs.
      split; [| split; [| split]].
      * intros id fmt. rewrite IHfmt. split.
        -- intros [H | (k & path & Hin & H)]; [by left |].
           right. exists k, path. split; [by apply list_elem_of_further | done].
        -- intros [H | (k & path & Hin & H)]; [by left |].
           apply elem_of_cons in Hin as [-> | Hin]; [congruence |].
           right. by exists k, path.
      * intros id. rewrite IHsome. split.
        -- intros [H | (k & fmt & path & Hin & H)]; [by left |].
           right. exists k, fmt, path. split; [by apply list_elem_of_further | done].
        -- intros [H | (k & fmt & path & Hin & H)]; [by left |].
           apply elem_of_cons in Hin as [-> | Hin]; [congruence |].
           right. by exists k, fmt, path.
      * rewrite IHlk. destruct (is_legacy_key key); cbn [list_to_set]; [| done].
        by rewrite (assoc_L (∪)).
      * rewrite IHlogs. destruct (is_legacy_key key); cbn [negb map]; [done |].
        by rewrite <- app_assoc.
Qed.

(** The dictionary that [list_converted_formats] returns, entry by entry. *)
Lemma list_converted_formats_inventory (listing : list string) :
  let inventory := fst (list_converted_formats listing) in
  (forall id fmt,
     fmt ∈ default ∅ (inventory !! id)
     <-> exists key path, key ∈ listing /\ classify_video_key key = Some (id, fmt, path))
  /\ (forall id formats, inventory !! id = Some formats -> formats <> ∅)
  /\ (forall id,
        is_Some (inventory !! id)
        <-> exists key fmt path,
              key ∈ listing /\ classify_video_key key = Some (id, fmt, path)).
Proof.
  cbv zeta. unfold list_converted_formats.
  destruct (list_converted_formats_fold listing ∅ ∅ []) as (Hfmt & Hsome & _ & _).
  cbv zeta in Hfmt, Hsome.
  destruct (fold_left _ _ _) as [[cv lk] logs]. simpl in *.
  assert (forall id,
            is_Some (cv !! id)
            <-> exists key fmt path,
                  key ∈ listing /\ classify_video_key key = Some (id, fmt, path)) as Hsome'.
  { intros id. rewrite Hsome, lookup_empty. split; [| by right].
    intros [[? [=]] | H]; done. }
  split; [| split; [| done]].
  - intros id fmt. rewrite Hfmt, lookup_empty. simpl. split; [| by right].
    intros [H | H]; [by apply not_elem_of_empty in H | done].
  - intros id formats Hid ->.
    destruct (proj1 (Hsome' id)) as (key & fmt & path & Hin & Hk); [by eexists |].
    assert (fmt ∈ default ∅ (cv !! id)) as Hfmt'.
    { apply Hfmt. right. by exists key, path. }
    rewrite Hid in Hfmt'. by apply not_elem_of_empty in Hfmt'.
Qed.

(** X3. The inventory holds a format for an id exactly when some key of
    the listing is a current key with that id and that format; an id has an
    entry exactly when it has such a key, so no entry is an empty set.
    Legacy keys and unrecognized keys add nothing. *)
Theorem list_converted_formats_spec (listing : list string) :
  let inventory := fst (list_converted_formats listing) in
  (forall id fmt,
     fmt ∈ default ∅ (inventory !! id)
     <-> exists key path, key ∈ listing /\ classify_video_key key = Some (id, fmt, path))
  /\ (forall id formats, inventory !! id = Some formats -> formats <> ∅)
  /\ (forall id,
        is_Some (inventory !! id)
        <-> exists key fmt path,
              key ∈ listing /\ classify_video_key key = Some (id, fmt, path)).
Proof. apply list_converted_formats_inventory. Qed.

(** X4. [list_converted_formats] warns about each key that neither pattern
    matches, in the order of the listing, and then reports how many
    different legacy keys it saw; it logs nothing else. *)
Theorem list_converted_formats_logs (listing : list string) :
  snd (list_converted_formats listing)
  = map (fun key => Log Warning (MsgUnrecognizedKey key))
        (List.filter is_unrecognized_key listing)
    ++ [Log Info (MsgLegacyIgnored
                    (size (list_to_set (List.filter is_legacy_key listing) : gset string)))].
Proof.
  unfold list_converted_formats.
  destruct (list_converted_formats_fold listing ∅ ∅ []) as (_ & _ & Hlk & Hlogs).
  cbv zeta in Hlk, Hlogs.
  destruct (fold_left _ _ _) as [[cv lk] logs]. simpl in *.
  subst lk logs. by rewrite (left_id_L ∅ (∪)).
Qed.

(** X5. The inventory depends only on which keys the listing holds: two
    listings with the same keys, in any order and with any repetitions, give
    the same dictionary. *)
Theorem list_converted_formats_same_keys (listing1 listing2 : list string) :
  (forall key, key ∈ listing1 <-> key ∈ listing2) ->
  fst (list_converted_formats listing1) = fst (list_converted_formats listing2).
Proof.
  intros Hsame.
  destruct (list_converted_formats_inventory listing1) as (Hfmt1 & Hne1 & Hsome1).
  destruct (list_converted_formats_inventory listing2) as (Hfmt2 & Hne2 & Hsome2).
  cbv zeta in *. apply map_eq. intros id.
  assert (is_Some (fst (list_converted_formats listing1) !! id)
          <-> is_Some (fst (list_converted_formats listing2) !! id)) as Hsome.
  { rewrite Hsome1, Hsome2. split; intros (key & fmt & path & Hin & Hk);
      exists key, fmt, path; (split; [by apply Hsame | done]). }
  assert (forall fmt,
            fmt ∈ default ∅ (fst (list_converted_formats listing1) !! id)
            <-> fmt ∈ default ∅ (fst (list_converted_formats listing2) !! id)) as Hfmt.
  { intros fmt. rewrite Hfmt1, Hfmt2. split; intros (key & path & Hin & Hk);
      exists key, path; (split; [by apply Hsame | done]). }
  destruct (fst (list_converted_formats listing1) !! id) as [s1|],
           (fst (list_converted_formats listing2) !! id) as [s2|]; simpl in *.
  - f_equal. by apply set_eq.
  - destruct (proj1 Hsome) as [? [=]]. by eexists.
  - destruct (proj2 Hsome) as [? [=]]. by eexists.
  - done.
Qed.

Lemma list_converted_formats_same_keys_witness :
  fst (list_converted_formats ["a.mp4/"; "b/"; "a.m3u8/"])
  = fst (list_converted_formats ["a.m3u8/"; "a.mp4/"; "b/"; "a.mp4/"]).
Proof.
  apply (list_converted_formats_same_keys
           ["a.mp4/"; "b/"; "a.m3u8/"] ["a.m3u8/"; "a.mp4/"; "b/"; "a.mp4/"]).
  intros key. rewrite !elem_of_cons, !elem_of_nil. tauto.
Defined.

(** X6. [list_legacy_mp4_videos] returns exactly the ids of the keys that
    the legacy pattern accepts; in particular the id of every key made of
    an id of [[\w-]] characters, a slash and a path without a newline. *)
Theorem list_legacy_mp4_videos_spec (listing : list string) :
  (forall v, v ∈ list_legacy_mp4_videos listing
     <-> exists key path, key ∈ listing /\ classify_legacy_key key = Some (v, path))
  /\ (forall v path,
        nonempty_all is_word_or_dash v = true ->
        Str.all is_dot path = true ->
        v +:+ "/" +:+ path ∈ listing ->
        v ∈ list_legacy_mp4_videos listing).
Proof.
  assert (forall v, v ∈ list_legacy_mp4_videos listing
            <-> exists key path, key ∈ listing /\ classify_legacy_key key = Some (v, path))
    as Hspec.
  { intros v. rewrite list_legacy_mp4_videos_elem. unfold classify_legacy_key. split.
    - intros (key & m & Hin & Hm & <-). exists key, (group m 2). by rewrite Hm.
    - intros (key & path & Hin & Hk).
      destruct (re_match re_legacy_video_key_name key) as [m|] eqn:Em; [| done].
      injection Hk as <- _. by exists key, m. }
  split; [done |].
  intros v path Hv Hpath Hin. apply Hspec. exists (v +:+ "/" +:+ path), path.
  split; [done |]. unfold classify_legacy_key. by rewrite legacy_key_shaped.
Qed.

(** X7. For a video of the catalog that carries an id, the entry of the
    result holds exactly the required formats for which the listing has no
    current key with that id and that format; it holds no format outside
    the required set. *)
Theorem list_missing_converted_formats_spec (DF : gset string) (listing : list string)
    (library : list playlist) (playlist : playlist) (video : gmap string string)
    (v : string) :
  playlist ∈ library ->
  video ∈ videos playlist ->
  video !! "youtube_id" = Some v ->
  exists missing,
    fst (list_missing_converted_formats DF listing library) !! v = Some missing
    /\ missing ⊆ DF
    /\ (forall fmt,
          fmt ∈ missing
          <-> fmt ∈ DF
              /\ ~ exists key path,
                     key ∈ listing /\ classify_video_key key = Some (v, fmt, path)).
Proof.
  intros Hp Hv Hy.
  destruct (list_missing_converted_formats_lookup DF listing library v) as [H _].
  cbv zeta in H. rewrite H by (by exists playlist, video).
  destruct (list_converted_formats_inventory listing) as (Hfmt & _ & _). cbv zeta in Hfmt.
  eexists. split; [done |]. split.
  - intros fmt Hin. by apply elem_of_difference in Hin as [? _].
  - intros fmt. by rewrite elem_of_difference, Hfmt.
Qed.

Lemma list_missing_converted_formats_spec_witness :
  exists missing,
    fst (list_missing_converted_formats {["mp4"; "m3u8"; "png"]}
           ["DK1lCc9b7bg.mp4/"; "DK1lCc9b7bg/"]
           [Playlist [ {["youtube_id" := "DK1lCc9b7bg"]} ]]) !! "DK1lCc9b7bg"
    = Some missing
    /\ missing ⊆ {["mp4"; "m3u8"; "png"]}.
Proof.
  destruct (list_missing_converted_formats_spec {["mp4"; "m3u8"; "png"]}
              ["DK1lCc9b7bg.mp4/"; "DK1lCc9b7bg/"]
              [Playlist [ {["youtube_id" := "DK1lCc9b7bg"]} ]]
              (Playlist [ {["youtube_id" := "DK1lCc9b7bg"]} ])
              {["youtube_id" := "DK1lCc9b7bg"]} "DK1lCc9b7bg")
    as (missing & H1 & H2 & _).
  - apply list_elem_of_here.
  - apply list_elem_of_here.
  - reflexivity.
  - by exists missing.
Defined.

(** X8. A video of the catalog whose required formats are all in the
    listing is not left out of the result: its entry is the empty set. *)
Theorem list_missing_nothing (DF : gset string) (listing : list string)
    (library : list playlist) (playlist : playlist) (video : gmap string string)
    (v : string) :
  playlist ∈ library ->
  video ∈ videos playlist ->
  video !! "youtube_id" = Some v ->
  (forall fmt, fmt ∈ DF ->
     exists key path, key ∈ listing /\ classify_video_key key = Some (v, fmt, path)) ->
  fst (list_missing_converted_formats DF listing library) !! v = Some ∅.
Proof.
  intros Hp Hv Hy Hall.
  destruct (list_missing_converted_formats_lookup DF listing library v) as [H _].
  cbv zeta in H. rewrite H by (by exists playlist, video).
  destruct (list_converted_formats_inventory listing) as (Hfmt & _ & _). cbv zeta in Hfmt.
  f_equal. apply set_eq. intros fmt. rewrite elem_of_difference, Hfmt.
  split; [| by intros ?%not_elem_of_empty].
  intros [Hin Hno]. destruct Hno. by apply Hall.
Qed.

Lemma list_missing_nothing_witness :
  fst (list_missing_converted_formats {["mp4"; "m3u8"]}
         ["DK1lCc9b7bg.mp4/"; "DK1lCc9b7bg.m3u8/"]
         [Playlist [ {["youtube_id" := "DK1lCc9b7bg"]} ]]) !! "DK1lCc9b7bg"
  = Some ∅.
Proof.
  apply (list_missing_nothing {["mp4"; "m3u8"]}
           ["DK1lCc9b7bg.mp4/"; "DK1lCc9b7bg.m3u8/"]
           [Playlist [ {["youtube_id" := "DK1lCc9b7bg"]} ]]
           (Playlist [ {["youtube_id" := "DK1lCc9b7bg"]} ])
           {["youtube_id" := "DK1lCc9b7bg"]}).
  - apply list_elem_of_here.
  - apply list_elem_of_here.
  - reflexivity.
  - intros fmt Hin. apply elem_of_union in Hin as [Hin | Hin];
      apply elem_of_singleton in Hin as ->.
    + exists "DK1lCc9b7bg.mp4/", "". split; [apply list_elem_of_here | reflexivity].
    + exists "DK1lCc9b7bg.m3u8/", "".
      split; [apply list_elem_of_further, list_elem_of_here | reflexivity].
Defined.

(** ** The retry loops, for any number of failures *)

(** X9. The put loop stops at the first answer that is not a server
    error: after fewer than ten server errors a successful put ends the loop
    with the object stored, and any other failure leaves the function at
    once, without the object and without another attempt. *)
Theorem upload_with_retries_first_answer (bucket dest : string) (w : world)
    (errors : list (nat * string)) (final : put_answer) :
  length errors < 10 ->
  (forall status reason, final <> PutServerError status reason) ->
  next_answers (put_script w) (puts_made w) (length errors + 1)
  = map server_error errors ++ [final] ->
  let w' := extend (failed_put_events bucket dest 0 errors ++ [PutFile bucket dest])
                   (set_puts_made (puts_made w + length errors + 1) w) in
  upload_with_retries bucket dest w
  = match final with
    | PutOk => (Normal tt, set_archive (archive w ++ [(bucket, dest)]) w')
    | _ => (Raise Uncaught, w')
    end.
Proof.
  intros Hlen Hfinal H. cbv zeta.
  rewrite next_answers_app in H.
  apply app_inj_1 in H as [Herr Hfin];
    [| by rewrite next_answers_length, length_map].
  unfold next_answers in Hfin. cbn [seq map] in Hfin. injection Hfin as Hfin.
  rewrite Nat.add_0_r in Hfin.
  unfold upload_with_retries.
  replace 10 with (length errors + S (9 - length errors)) by lia.
  rewrite seq_app. cbn [Nat.add].
  rewrite put_attempts_failures by done.
  cbn [seq put_attempts]. unfold set_contents_from_file.
  world_fields. rewrite Hfin.
  destruct final as [| status reason |]; [| by destruct (Hfinal status reason) |];
    world_eq.
Qed.

Lemma upload_with_retries_first_answer_witness :
  fst (upload_with_retries "KA-converted-abc123" "abc123.mp4"
         (Scenario.abc123 (timedelta_hours 2) (Scenario.slow_down 3) Scenario.always_200))
  = Normal tt.
Proof.
  rewrite (upload_with_retries_first_answer "KA-converted-abc123" "abc123.mp4"
             (Scenario.abc123 (timedelta_hours 2) (Scenario.slow_down 3) Scenario.always_200)
             (repeat (503, "Slow Down") 3) PutOk).
  - reflexivity.
  - simpl. lia.
  - discriminate.
  - reflexivity.
Defined.

(** X10. The verification stops at the first answer that is not an HTTP
    error: after fewer than five HTTP errors, each followed by a sleep of
    ten seconds, a response is compared with 200 at once (any other status
    returns False without a retry), and a failure that is not an HTTP error
    leaves the function as an exception. *)
Theorem verify_archive_upload_first_answer (youtube_id filename : string) (w : world)
    (codes : list nat) (final : head_answer) :
  length codes < 5 ->
  (forall code, final <> HeadHTTPError code) ->
  next_answers (head_script w) (heads_made w) (length codes + 1)
  = map HeadHTTPError codes ++ [final] ->
  let url := archive_url youtube_id filename in
  let w' := extend (failed_head_events url 0 codes ++ [HeadRequest url])
              (set_utcnow (utcnow w + timedelta_seconds (10 * Z.of_nat (length codes)))%Z
                 (set_heads_made (heads_made w + length codes + 1) w)) in
  verify_archive_upload youtube_id filename w
  = match final with
    | HeadResponse code => (Return (code =? 200)%nat, w')
    | _ => (Raise Uncaught, w')
    end.
Proof.
  intros Hlen Hfinal H. cbv zeta.
  rewrite next_answers_app in H.
  apply app_inj_1 in H as [Herr Hfin];
    [| by rewrite next_answers_length, length_map].
  unfold next_answers in Hfin. cbn [seq map] in Hfin. injection Hfin as Hfin.
  rewrite Nat.add_0_r in Hfin.
  unfold verify_archive_upload.
  replace c_retries_allowed with (length codes + S (4 - length codes))
    by (unfold c_retries_allowed; lia).
  rewrite verify_while_errors by done.
  cbn [verify_while]. unfold urlopen_head.
  world_fields. rewrite Hfin.
  destruct final as [code | code |]; [| by destruct (Hfinal code) |]; world_eq.
Qed.

Lemma verify_archive_upload_first_answer_witness :
  fst (verify_archive_upload "abc123" "abc123.mp4"
         (Scenario.abc123 (timedelta_hours 2) Scenario.always_ok
            (fun i => if (i <? 2)%nat then HeadHTTPError 503 else HeadResponse 204)))
  = Return false.
Proof.
  rewrite (verify_archive_upload_first_answer "abc123" "abc123.mp4"
             (Scenario.abc123 (timedelta_hours 2) Scenario.always_ok
                (fun i => if (i <? 2)%nat then HeadHTTPError 503 else HeadResponse 204))
             [503; 503] (HeadResponse 204)).
  - reflexivity.
  - simpl. lia.
  - discriminate.
  - reflexivity.
Defined.

(** ** What the functions leave alone *)

Lemma only_requests_refl (w : world) : only_requests w w.
Proof. unfold only_requests. repeat split; try done. exists []. by rewrite app_nil_r. Qed.

Lemma only_requests_trans (w1 w2 w3 : world) :
  only_requests w1 w2 -> only_requests w2 w3 -> only_requests w1 w3.
Proof.
  unfold only_requests.
  intros (? & ? & ? & ? & ? & ? & ? & ? & ? & evs1 & Ht1)
         (? & ? & ? & ? & ? & ? & ? & ? & ? & evs2 & Ht2).
  repeat split; try congruence; try lia.
  exists (evs1 ++ evs2). by rewrite Ht2, Ht1, app_assoc.
Qed.

Lemma only_uploads_refl (w : world) : only_uploads w w.
Proof.
  unfold only_uploads. repeat split; try done; exists []; by rewrite app_nil_r.
Qed.

Lemma only_uploads_trans (w1 w2 w3 : world) :
  only_uploads w1 w2 -> only_uploads w2 w3 -> only_uploads w1 w3.
Proof.
  unfold only_uploads.
  intros (? & ? & ? & ? & ? & (st1 & Ha1) & ? & ? & ? & evs1 & Ht1)
         (? & ? & ? & ? & ? & (st2 & Ha2) & ? & ? & ? & evs2 & Ht2).
  repeat split; try congruence; try lia.
  - exists (st1 ++ st2). by rewrite Ha2, Ha1, app_assoc.
  - exists (evs1 ++ evs2). by rewrite Ht2, Ht1, app_assoc.
Qed.

Lemma only_requests_uploads (w w' : world) : only_requests w w' -> only_uploads w w'.
Proof.
  unfold only_requests, only_uploads.
  intros (? & Ha & ? & Hp & ? & ? & ? & ? & ? & ?).
  repeat split; try done; try lia.
  exists []. by rewrite app_nil_r.
Qed.

Lemma only_uploads_extend (evs : list event) (w : world) : only_uploads w (extend evs w).
Proof.
  unfold only_uploads. cbn [extend converted archive utcnow put_script puts_made
    head_script heads_made get_file_ok video_metadata_ok trace].
  repeat split; try done; [exists []; by rewrite app_nil_r | by exists evs].
Qed.

Lemma only_requests_extend (evs : list event) (w : world) : only_requests w (extend evs w).
Proof.
  unfold only_requests. cbn [extend converted archive utcnow put_script puts_made
    head_script heads_made get_file_ok video_metadata_ok trace].
  repeat split; try done. by exists evs.
Qed.

Lemma preserves_bind {A B} (P : world -> world -> Prop) (m : M A) (k : A -> M B) :
  (forall w1 w2 w3, P w1 w2 -> P w2 w3 -> P w1 w3) ->
  preserves P m -> (forall a, preserves P (k a)) -> preserves P (bind m k).
Proof.
  intros Htrans Hm Hk w. unfold bind. specialize (Hm w).
  destruct (m w) as [[a | b | e] w1]; simpl in *; [| done | done].
  eapply Htrans; [exact Hm | apply Hk].
Qed.

Ltac frame_solve :=
  unfold only_requests, only_uploads, propagation_delay, timedelta_seconds;
  world_fields;
  repeat split; try done; try lia;
  try (exists []; rewrite app_nil_r; reflexivity);
  try (eexists; rewrite <- ?app_assoc; reflexivity).

Lemma verify_while_only_requests (r c : nat) (url : string) :
  preserves only_requests (verify_while r c url).
Proof.
  revert c. induction r as [|r IH]; intros c w.
  - apply only_requests_refl.
  - cbn [verify_while]. unfold urlopen_head.
    assert (only_requests w (emit (HeadRequest url) (set_heads_made (S (heads_made w)) w)))
      as Hreq.
    { frame_solve. }
    destruct (head_script w (heads_made w)) as [code | code |]; [done | | done].
    unfold bind, logger, sleep. cbn beta iota.
    eapply only_requests_trans; [exact Hreq |].
    eapply only_requests_trans; [| apply IH].
    frame_solve.
Qed.

Lemma verify_uploads_only_requests (youtube_id : string) (names : list string) :
  preserves only_requests (verify_uploads youtube_id names).
Proof.
  induction names as [|n names IH]; intros w; [apply only_requests_refl |].
  cbn [verify_uploads].
  pose proof (verify_while_only_requests c_retries_allowed 0
                (archive_url youtube_id n) w) as Hv.
  fold (verify_archive_upload youtube_id n) in Hv.
  destruct (verify_archive_upload youtube_id n w) as [[a | [] | e] w1]; simpl in Hv;
    [| | | done].
  - unfold bind, logger, return_. cbn beta iota.
    eapply only_requests_trans; [exact Hv |]. rewrite emit_extend. apply only_requests_extend.
  - unfold bind, logger. cbn beta iota.
    eapply only_requests_trans; [exact Hv |].
    eapply only_requests_trans; [| apply IH].
    rewrite emit_extend. apply only_requests_extend.
  - unfold bind, logger, return_. cbn beta iota.
    eapply only_requests_trans; [exact Hv |]. rewrite emit_extend. apply only_requests_extend.
Qed.

Lemma await_and_verify_only_requests (youtube_id : string) (uploaded : list string) :
  preserves only_requests (await_and_verify youtube_id uploaded).
Proof.
  intros w. rewrite await_and_verify_unfold.
  pose proof (verify_uploads_only_requests youtube_id uploaded (propagation_delay w)) as Hv.
  assert (only_requests w (propagation_delay w)) as Hd.
  { frame_solve. }
  destruct (verify_uploads _ _ _) as [[a | b | e] w1]; simpl in *;
    by eapply only_requests_trans.
Qed.

(** X11. A verification changes neither bucket and makes no put: it only
    sends requests, logs and sleeps, so the clock and the count of requests
    do not go back and the trace is only appended to. *)
Theorem verify_archive_upload_only_requests (youtube_id filename : string) (w : world) :
  only_requests w (snd (verify_archive_upload youtube_id filename w)).
Proof. apply verify_while_only_requests. Qed.

(** ** The transfer *)

Lemma only_puts_refl (w : world) : only_puts [] w w.
Proof. unfold only_puts. rewrite app_nil_r. repeat split; try done. exists []. by rewrite app_nil_r. Qed.

Lemma only_puts_trans (s1 s2 : list (string * string)) (w1 w2 w3 : world) :
  only_puts s1 w1 w2 -> only_puts s2 w2 w3 -> only_puts (s1 ++ s2) w1 w3.
Proof.
  unfold only_puts.
  intros (? & Ha1 & ? & ? & ? & ? & ? & ? & ? & evs1 & Ht1)
         (? & Ha2 & ? & ? & ? & ? & ? & ? & ? & evs2 & Ht2).
  repeat split; try congruence; try lia.
  - by rewrite Ha2, Ha1, app_assoc.
  - exists (evs1 ++ evs2). by rewrite Ht2, Ht1, app_assoc.
Qed.

Lemma only_puts_uploads (stored : list (string * string)) (w w' : world) :
  only_puts stored w w' -> only_uploads w w'.
Proof.
  unfold only_puts, only_uploads.
  intros (? & Ha & ? & ? & ? & ? & ? & ? & ? & ?).
  repeat split; try done; try lia. by exists stored.
Qed.

Lemma only_puts_extend (evs : list event) (w : world) : only_puts [] w (extend evs w).
Proof.
  unfold only_puts. world_fields. rewrite app_nil_r.
  repeat split; try done. by exists evs.
Qed.

Ltac puts_solve :=
  unfold only_puts; world_fields;
  repeat split; try done; try lia;
  try (rewrite app_nil_r; reflexivity);
  try (exists []; rewrite app_nil_r; reflexivity);
  try (eexists; rewrite <- ?app_assoc; reflexivity).

(** The put loop, whatever the answers: it stores the object exactly when
    it ends normally, and it never returns. *)
Lemma put_attempts_outcome (attempts : list nat) (bucket dest : string) :
  forall w : world,
  match put_attempts attempts bucket dest w with
  | (Normal _, w') => only_puts [(bucket, dest)] w w'
  | (Return _, _) => False
  | (Raise _, w') => only_puts [] w w'
  end.
Proof.
  induction attempts as [|attempt attempts IH]; intros w.
  - simpl. apply only_puts_refl.
  - cbn [put_attempts]. unfold set_contents_from_file.
    destruct (put_script w (puts_made w)) as [| status reason |].
    + puts_solve.
    + unfold bind, logger. cbn beta iota.
      match goal with |- context [put_attempts attempts bucket dest ?w1] =>
        specialize (IH w1);
        assert (only_puts [] w w1) as Hstep by puts_solve;
        destruct (put_attempts attempts bucket dest w1) as [[a | b | e] w'] end.
      * apply (only_puts_trans [] _ _ _ _ Hstep IH).
      * done.
      * apply (only_puts_trans [] [] _ _ _ Hstep IH).
    + puts_solve.
Qed.

(** One key: it is stored under its destination name exactly when the step
    ends normally. *)
Lemma transfer_key_outcome (youtube_id format bucket : string) (key : s3key)
    (uploaded : list string) (w : world) :
  match transfer_key youtube_id format bucket key uploaded w with
  | (Normal uploaded', w') =>
      uploaded' = uploaded ++ [destination_name key]
      /\ only_puts [(bucket, destination_name key)] w w'
  | (Return _, _) => False
  | (Raise _, w') => only_puts [] w w'
  end.
Proof.
  unfold transfer_key, destination_name.
  destruct (re_match re_video_key_name (name key)) as [m|]; [| apply only_puts_refl].
  unfold bind, assert, ret, raise, logger, key_get_file.
  destruct (String.eqb (group m 1) youtube_id); cbn beta iota; [| apply only_puts_refl].
  destruct (String.eqb (group m 2) format); cbn beta iota; [| apply only_puts_refl].
  destruct (Str.startswith (group0 m) (name key)); cbn beta iota; [| apply only_puts_refl].
  destruct (Str.contains "/" _); cbn [negb]; cbn beta iota; [apply only_puts_refl |].
  set (dest := Str.drop (String.length (group0 m)) (name key)).
  set (w1 := emit (Log Debug (MsgCopyingFile dest)) w).
  assert (get_file_ok w1 = get_file_ok w) as -> by done.
  assert (only_puts [] w (emit (GetFile (name key)) w1)) as Hstep
    by (subst w1; puts_solve).
  destruct (get_file_ok w (name key)); cbn beta iota; [| done].
  unfold upload_with_retries.
  pose proof (put_attempts_outcome (seq 0 10) bucket dest (emit (GetFile (name key)) w1))
    as Hput.
  destruct (put_attempts (seq 0 10) bucket dest _) as [[a | b | e] w2]; [| done |].
  - split; [done |]. apply (only_puts_trans [] _ _ _ _ Hstep Hput).
  - apply (only_puts_trans [] [] _ _ _ Hstep Hput).
Qed.

Lemma transfer_keys_outcome (youtube_id format bucket : string) (keys : list s3key) :
  forall (uploaded : list string) (w : world),
  match transfer_keys youtube_id format bucket keys uploaded w with
  | (Normal uploaded', w') =>
      uploaded' = uploaded ++ map destination_name keys
      /\ only_puts (map (fun key => (bucket, destination_name key)) keys) w w'
  | (Return _, _) => False
  | (Raise _, w') => exists stored, only_puts stored w w'
  end.
Proof.
  induction keys as [|key keys IH]; intros uploaded w.
  - simpl. split; [by rewrite app_nil_r | apply only_puts_refl].
  - cbn [transfer_keys map]. unfold bind.
    pose proof (transfer_key_outcome youtube_id format bucket key uploaded w) as Hk.
    destruct (transfer_key youtube_id format bucket key uploaded w) as [[up1 | b | e] w1];
      [| done | by exists []].
    destruct Hk as [-> Hk]. specialize (IH (uploaded ++ [destination_name key]) w1).
    destruct (transfer_keys _ _ _ keys _ w1) as [[up2 | b | e] w2]; [| done |].
    + destruct IH as [-> IH]. split; [by rewrite <- app_assoc |].
      apply (only_puts_trans [_] _ _ _ _ Hk IH).
    + destruct IH as [stored IH]. eexists. apply (only_puts_trans _ _ _ _ _ Hk IH).
Qed.

Lemma transfer_formats_outcome (youtube_id bucket : string) (formats : list string) :
  forall (skf : gmap string (list s3key)) (uploaded : list string) (w : world),
  match transfer_formats youtube_id bucket formats skf uploaded w with
  | (Normal uploaded', w') =>
      let names := flat_map (fun format => map destination_name (default [] (skf !! format)))
                            formats in
      uploaded' = uploaded ++ names
      /\ only_puts (map (pair bucket) names) w w'
  | (Return _, _) => False
  | (Raise _, w') => exists stored, only_puts stored w w'
  end.
Proof.
  induction formats as [|format formats IH]; intros skf uploaded w.
  - simpl. split; [by rewrite app_nil_r | apply only_puts_refl].
  - cbn [transfer_formats flat_map].
    pose proof (defaultdict_getitem_fst [] skf format) as Hfst.
    pose proof (defaultdict_getitem_snd [] skf format) as Hsnd.
    destruct (defaultdict_getitem [] skf format) as [keys d]. simpl in Hfst, Hsnd.
    subst keys. unfold bind.
    pose proof (transfer_keys_outcome youtube_id format bucket
                  (default [] (skf !! format)) uploaded w) as Hk.
    destruct (transfer_keys _ _ _ _ _ w) as [[up1 | b | e] w1]; [| done | done].
    destruct Hk as [-> Hk]. specialize (IH d (uploaded ++ map destination_name
                                                (default [] (skf !! format))) w1).
    destruct (transfer_formats _ _ formats d _ w1) as [[up2 | b | e] w2]; [| done |].
    + cbv zeta in IH |- *. destruct IH as [-> IH].
      assert (flat_map (fun format0 => map destination_name (default [] (d !! format0)))
                formats
              = flat_map (fun format0 => map destination_name (default [] (skf !! format0)))
                  formats) as Heq.
      { apply flat_map_ext. intros f. by rewrite Hsnd. }
      rewrite Heq in IH |- *. split; [by rewrite <- app_assoc |].
      rewrite map_app, map_map.
      eapply only_puts_trans; [exact Hk | exact IH].
    + destruct IH as [stored IH]. eexists. apply (only_puts_trans _ _ _ _ _ Hk IH).
Qed.

(** ** The upload as a whole *)

Lemma check_requested_formats_outcome (youtube_id : string) (formats : list string) :
  forall (skf : gmap string (list s3key)) (w : world),
  match check_requested_formats youtube_id formats skf w with
  | (Normal d, w') =>
      w' = w
      /\ (forall f, default [] (d !! f) = default [] (skf !! f))
      /\ (forall f, In f formats -> default [] (skf !! f) <> [])
  | (Return b, w') =>
      b = false
      /\ exists f, In f formats /\ default [] (skf !! f) = []
                   /\ w' = emit (Log Error (MsgFormatNotFound f youtube_id)) w
  | (Raise _, _) => False
  end.
Proof.
  induction formats as [|format formats IH]; intros skf w.
  - simpl. by repeat split.
  - cbn [check_requested_formats].
    pose proof (defaultdict_getitem_fst [] skf format) as Hfst.
    pose proof (defaultdict_getitem_snd [] skf format) as Hsnd.
    destruct (defaultdict_getitem [] skf format) as [keys d]. simpl in Hfst, Hsnd.
    subst keys. destruct (default [] (skf !! format)) as [|k ks] eqn:Ek; cbn [length Nat.eqb].
    + unfold bind, logger, return_. cbn beta iota. split; [done |].
      exists format. repeat split; [by left | done].
    + specialize (IH d w).
      destruct (check_requested_formats youtube_id formats d w) as [[d' | b | e] w'];
        [| | done].
      * destruct IH as (-> & Hd & Hall). split; [done |]. split.
        -- intros f. by rewrite Hd, Hsnd.
        -- intros f [<- | Hin]; [by rewrite Ek |]. rewrite <- Hsnd. by apply Hall.
      * destruct IH as (-> & f & Hin & Hf & ->). split; [done |].
        exists f. repeat split; [by right | by rewrite <- Hsnd].
Qed.

Lemma append_source_key_lookup (skf : gmap string (list s3key)) (format : string)
    (key : s3key) (f : string) :
  default [] (append_source_key skf format key !! f)
  = default [] (skf !! f) ++ (if String.eqb format f then [key] else []).
Proof.
  unfold append_source_key.
  pose proof (defaultdict_getitem_fst [] skf format) as Hfst.
  destruct (defaultdict_getitem [] skf format) as [keys d] eqn:Ed. simpl in Hfst.
  subst keys. destruct (String.eqb format f) eqn:E.
  - apply String.eqb_eq in E as <-. by rewrite lookup_insert_eq.
  - apply String.eqb_neq in E. rewrite lookup_insert_ne, app_nil_r by done.
    unfold defaultdict_getitem in Ed.
    destruct (skf !! format); injection Ed as <-; [done |].
    by rewrite lookup_insert_ne.
Qed.

(** When every key passes, the first loop ends normally, having only
    logged, with the current keys grouped by format in the order of the
    listing. *)
Lemma gather_source_keys_pass (youtube_id : string) (keys : list s3key) :
  forall (skf : gmap string (list s3key)) (w : world),
  forallb (passes_gate youtube_id (utcnow w)) keys = true ->
  exists skf' evs,
    gather_source_keys youtube_id keys skf w = (Normal skf', extend evs w)
    /\ forallb is_log evs = true
    /\ forall f, default [] (skf' !! f)
                 = default [] (skf !! f) ++ List.filter (key_has_format f) keys.
Proof.
  induction keys as [|key keys IH]; intros skf w Hpass.
  - exists skf, []. rewrite extend_nil. repeat split. intros f. by rewrite app_nil_r.
  - cbn [forallb] in Hpass. apply andb_prop in Hpass as [Hk Hpass].
    cbn [gather_source_keys List.filter]. unfold passes_gate in Hk. unfold key_has_format at 1.
    destruct (re_match re_video_key_name (name key)) as [m|] eqn:Em.
    + apply andb_prop in Hk as [Hid Hready].
      unfold is_ready in Hready. apply negb_true_iff in Hready.
      unfold bind, assert, datetime_utcnow, ret. rewrite Hid, Hready. cbn beta iota.
      destruct (IH (append_source_key skf (group m 2) key) w Hpass)
        as (skf' & evs & -> & Hlog & Hskf).
      exists skf', evs. repeat split; try done.
      intros f. rewrite Hskf, append_source_key_lookup.
      destruct (String.eqb (group m 2) f); by rewrite <- app_assoc.
    + unfold bind. destruct (re_match re_legacy_video_key_name (name key)).
      * unfold ret. cbn beta iota. by apply IH.
      * unfold logger. cbn beta iota.
        destruct (IH skf (emit (Log Info (MsgUnrecognizedFile (name key))) w) Hpass)
          as (skf' & evs & -> & Hlog & Hskf).
        exists skf', (Log Info (MsgUnrecognizedFile (name key)) :: evs).
        repeat split; try done. by rewrite emit_extend, extend_extend.
Qed.

Lemma upload_converted_to_archive_unfold (youtube_id : string)
    (formats_to_upload : list string) (w : world) :
  upload_converted_to_archive youtube_id formats_to_upload w
  = match gather_source_keys youtube_id
            (List.filter (fun k => Str.startswith youtube_id (name k)) (converted w))
            ∅ (emit (ListKeys youtube_id) w) with
    | (Normal skf, w') => upload_after_discovery youtube_id formats_to_upload skf w'
    | (Return b, w') => (Return b, w')
    | (Raise e, w') => (Raise e, w')
    end.
Proof. reflexivity. Qed.

Lemma upload_after_discovery_unfold (youtube_id : string)
    (formats_to_upload : list string) (skf : gmap string (list s3key)) (w : world) :
  upload_after_discovery youtube_id formats_to_upload skf w
  = match check_requested_formats youtube_id formats_to_upload skf w with
    | (Normal d, w1) =>
        if video_metadata_ok w1 youtube_id then
          match transfer_formats youtube_id ("KA-converted-" +:+ youtube_id)
                  formats_to_upload d [] (emit (VideoMetadata youtube_id) w1) with
          | (Normal uploaded, w2) => await_and_verify youtube_id uploaded w2
          | (Return b, w2) => (Return b, w2)
          | (Raise e, w2) => (Raise e, w2)
          end
        else (Raise Uncaught, emit (VideoMetadata youtube_id) w1)
    | (Return b, w1) => (Return b, w1)
    | (Raise e, w1) => (Raise e, w1)
    end.
Proof.
  unfold upload_after_discovery, bind, api_video_metadata.
  destruct (check_requested_formats _ _ _ _) as [[d | b | e] w1]; [| done | done].
  by destruct (video_metadata_ok w1 youtube_id).
Qed.

Lemma upload_after_discovery_only_uploads (youtube_id : string)
    (formats_to_upload : list string) (skf : gmap string (list s3key)) :
  preserves only_uploads (upload_after_discovery youtube_id formats_to_upload skf).
Proof.
  intros w. rewrite upload_after_discovery_unfold.
  pose proof (check_requested_formats_outcome youtube_id formats_to_upload skf w) as Hc.
  destruct (check_requested_formats _ _ _ _) as [[d | b | e] w1]; [| | done].
  - destruct Hc as (-> & _ & _).
    destruct (video_metadata_ok w youtube_id);
      [| rewrite emit_extend; apply only_uploads_extend].
    pose proof (transfer_formats_outcome youtube_id ("KA-converted-" +:+ youtube_id)
                  formats_to_upload d [] (emit (VideoMetadata youtube_id) w)) as Ht.
    assert (only_uploads w (emit (VideoMetadata youtube_id) w)) as Hm
      by (rewrite emit_extend; apply only_uploads_extend).
    destruct (transfer_formats _ _ _ _ _ _) as [[uploaded | b | e] w2]; [| done |].
    + cbv zeta in Ht. destruct Ht as [_ Ht].
      eapply only_uploads_trans; [exact Hm |].
      eapply only_uploads_trans; [exact (only_puts_uploads _ _ _ Ht) |].
      apply only_requests_uploads, await_and_verify_only_requests.
    + destruct Ht as [stored Ht]. simpl.
      eapply only_uploads_trans; [exact Hm | exact (only_puts_uploads _ _ _ Ht)].
  - destruct Hc as (_ & f & _ & _ & ->). simpl.
    rewrite emit_extend. apply only_uploads_extend.
Qed.

(** X12. Whatever happens, an upload leaves the converted bucket as it
    was: it copies, moves or deletes nothing there; objects are only added
    to the archive, and the trace is only appended to. *)
Theorem upload_converted_to_archive_only_uploads (youtube_id : string)
    (formats_to_upload : list string) (w : world) :
  only_uploads w (snd (upload_converted_to_archive youtube_id formats_to_upload w)).
Proof.
  rewrite upload_converted_to_archive_unfold.
  set (keys := List.filter _ (converted w)).
  destruct (gather_source_keys_shape youtube_id keys ∅ (emit (ListKeys youtube_id) w))
    as (evs & _ & Hw & _).
  assert (only_uploads w (extend evs (emit (ListKeys youtube_id) w))) as Hg.
  { rewrite emit_extend, extend_extend. apply only_uploads_extend. }
  destruct (gather_source_keys _ _ _ _) as [[skf | b | e] w1]; simpl in Hw; subst w1;
    [| done | done].
  eapply only_uploads_trans; [exact Hg |].
  apply upload_after_discovery_only_uploads.
Qed.



(** X14. When every listed key passes the gate and a requested format has
    no current key in the listing, the upload returns False having only
    listed and logged: nothing is fetched or put, the video metadata is not
    asked for, and the last line logged names a requested format without
    keys. *)
Theorem upload_source_missing_returns_false (youtube_id : string)
    (formats_to_upload : list string) (w : world) (format : string) :
  let keys := List.filter (fun k => Str.startswith youtube_id (name k)) (converted w) in
  forallb (passes_gate youtube_id (utcnow w)) keys = true ->
  In format formats_to_upload ->
  List.filter (key_has_format format) keys = [] ->
  exists evs f,
    upload_converted_to_archive youtube_id formats_to_upload w
    = (Return false,
       extend (ListKeys youtube_id :: evs ++ [Log Error (MsgFormatNotFound f youtube_id)]) w)
    /\ forallb is_log evs = true
    /\ In f formats_to_upload
    /\ List.filter (key_has_format f) keys = [].
Proof.
  cbv zeta. intros Hpass Hin Hnone.
  rewrite upload_converted_to_archive_unfold.
  set (keys := List.filter _ (converted w)) in *.
  set (w0 := emit (ListKeys youtube_id) w).
  destruct (gather_source_keys_pass youtube_id keys ∅ w0 Hpass)
    as (skf & evs & -> & Hlog & Hskf).
  rewrite upload_after_discovery_unfold.
  pose proof (check_requested_formats_outcome youtube_id formats_to_upload skf
                (extend evs w0)) as Hc.
  assert (forall f, default [] (skf !! f) = List.filter (key_has_format f) keys) as Hlook.
  { intros f. by rewrite Hskf, lookup_empty. }
  destruct (check_requested_formats _ _ _ _) as [[d | b | e] w1]; [| | done].
  - destruct Hc as (_ & _ & Hall). destruct (Hall format Hin). by rewrite Hlook.
  - destruct Hc as (-> & f & Hf & Hempty & ->).
    exists evs, f. split; [| by rewrite <- Hlook].
    f_equal. subst w0. by rewrite !emit_extend, !extend_extend.
Qed.

Lemma upload_source_missing_returns_false_witness :
  fst (upload_converted_to_archive "abc123" ["mp4"; "m3u8"]
         (Scenario.abc123 (timedelta_hours 2) Scenario.always_ok Scenario.always_200))
  = Return false.
Proof.
  destruct (upload_source_missing_returns_false "abc123" ["mp4"; "m3u8"]
              (Scenario.abc123 (timedelta_hours 2) Scenario.always_ok Scenario.always_200)
              "m3u8") as (evs & f & H & _).
  - reflexivity.
  - right. by left.
  - reflexivity.
  - by rewrite H.
Defined.

(** X15. With no format requested, and every listed key passing the gate,
    the upload asks for the video metadata, waits its ten seconds and
    returns True: it fetches nothing, puts nothing and verifies nothing. *)
Theorem upload_of_no_format (youtube_id : string) (w : world) :
  let keys := List.filter (fun k => Str.startswith youtube_id (name k)) (converted w) in
  forallb (passes_gate youtube_id (utcnow w)) keys = true ->
  video_metadata_ok w youtube_id = true ->
  exists evs,
    upload_converted_to_archive youtube_id [] w
    = (Return true,
       extend (ListKeys youtube_id :: evs
               ++ [VideoMetadata youtube_id; Log Debug MsgWaiting; Sleep 10])
         (set_utcnow (utcnow w + timedelta_seconds 10)%Z w))
    /\ forallb is_log evs = true.
Proof.
  cbv zeta. intros Hpass Hmeta.
  rewrite upload_converted_to_archive_unfold.
  set (keys := List.filter _ (converted w)) in *.
  set (w0 := emit (ListKeys youtube_id) w).
  destruct (gather_source_keys_pass youtube_id keys ∅ w0 Hpass)
    as (skf & evs & -> & Hlog & _).
  exists evs. split; [| done].
  rewrite upload_after_discovery_unfold. cbn [check_requested_formats]. unfold ret.
  change (video_metadata_ok (extend evs w0) youtube_id)
    with (video_metadata_ok w youtube_id).
  rewrite Hmeta. cbn [transfer_formats]. unfold ret.
  rewrite await_and_verify_unfold. cbn [verify_uploads]. unfold ret.
  subst w0. unfold propagation_delay. world_eq.
Qed.

Lemma upload_of_no_format_witness :
  fst (upload_converted_to_archive "abc123" []
         (Scenario.abc123 (timedelta_hours 2) Scenario.always_ok Scenario.always_200))
  = Return true.
Proof.
  destruct (upload_of_no_format "abc123"
              (Scenario.abc123 (timedelta_hours 2) Scenario.always_ok Scenario.always_200))
    as (evs & H & _).
  - reflexivity.
  - reflexivity.
  - by rewrite H.
Defined.

Lemma transfer_key_nested (youtube_id format bucket : string) (key : s3key)
    (uploaded : list string) (w : world) (m : match_object) :
  re_match re_video_key_name (name key) = Some m ->
  Str.contains "/" (destination_name key) = true ->
  transfer_key youtube_id format bucket key uploaded w = (Raise AssertionError, w).
Proof.
  unfold transfer_key, destination_name. intros -> Hnested.
  unfold bind, assert, ret, raise.
  destruct (String.eqb (group m 1) youtube_id); [| done].
  destruct (String.eqb (group m 2) format); [| done].
  destruct (Str.startswith (group0 m) (name key)); [| done].
  cbn beta iota. by rewrite Hnested.
Qed.

Lemma transfer_formats_cons (youtube_id bucket format : string) (rest : list string)
    (skf : gmap string (list s3key)) (uploaded : list string) (w : world) :
  transfer_formats youtube_id bucket (format :: rest) skf uploaded w
  = match transfer_keys youtube_id format bucket (default [] (skf !! format)) uploaded w with
    | (Normal uploaded', w') =>
        transfer_formats youtube_id bucket rest
          (snd (defaultdict_getitem [] skf format)) uploaded' w'
    | (Return b, w') => (Return b, w')
    | (Raise e, w') => (Raise e, w')
    end.
Proof.
  cbn [transfer_formats]. rewrite <- defaultdict_getitem_fst.
  by destruct (defaultdict_getitem [] skf format).
Qed.

(** X16. A key with a second level of nesting is refused before it is
    fetched: when it is the first key of the first requested format (all
    keys passing the gate, all requested formats having keys, the video
    metadata at hand), the upload raises AssertionError with nothing
    fetched and nothing put. *)
Theorem upload_nested_key_asserts (youtube_id format : string) (rest : list string)
    (w : world) (key : s3key) (others : list s3key) :
  let keys := List.filter (fun k => Str.startswith youtube_id (name k)) (converted w) in
  forallb (passes_gate youtube_id (utcnow w)) keys = true ->
  (forall f, In f rest -> List.filter (key_has_format f) keys <> []) ->
  video_metadata_ok w youtube_id = true ->
  List.filter (key_has_format format) keys = key :: others ->
  Str.contains "/" (destination_name key) = true ->
  exists evs,
    upload_converted_to_archive youtube_id (format :: rest) w
    = (Raise AssertionError,
       extend (ListKeys youtube_id :: evs ++ [VideoMetadata youtube_id]) w)
    /\ forallb is_log evs = true.
Proof.
  cbv zeta. intros Hpass Hrest Hmeta Hkeys Hnested.
  rewrite upload_converted_to_archive_unfold.
  set (keys := List.filter _ (converted w)) in *.
  set (w0 := emit (ListKeys youtube_id) w).
  destruct (gather_source_keys_pass youtube_id keys ∅ w0 Hpass)
    as (skf & evs & -> & Hlog & Hskf).
  exists evs. split; [| done].
  assert (forall f, default [] (skf !! f) = List.filter (key_has_format f) keys) as Hlook.
  { intros f. by rewrite Hskf, lookup_empty. }
  rewrite upload_after_discovery_unfold.
  pose proof (check_requested_formats_outcome youtube_id (format :: rest) skf
                (extend evs w0)) as Hc.
  destruct (check_requested_formats _ _ _ _) as [[d | b | e] w1]; [| | done].
  2: { destruct Hc as (_ & f & [<- | Hf] & Hempty & _); rewrite Hlook in Hempty.
       - by rewrite Hkeys in Hempty.
       - by destruct (Hrest f Hf). }
  destruct Hc as (-> & Hd & _).
  change (video_metadata_ok (extend evs w0) youtube_id)
    with (video_metadata_ok w youtube_id).
  rewrite Hmeta, transfer_formats_cons, Hd, Hlook, Hkeys.
  cbn [transfer_keys]. unfold bind at 1.
  assert (exists m, re_match re_video_key_name (name key) = Some m) as [m Hm].
  { unfold destination_name in Hnested.
    destruct (re_match re_video_key_name (name key)); [by eexists | done]. }
  rewrite (transfer_key_nested _ _ _ _ _ _ m Hm Hnested).
  f_equal. subst w0. by rewrite !emit_extend, !extend_extend.
Qed.

Lemma upload_nested_key_asserts_witness :
  fst (upload_converted_to_archive "abc123" ["m3u8"]
         (World [S3Key "abc123.m3u8/low/abc123.m3u8" 0%Z "public-read"]
                [] (timedelta_hours 2) Scenario.always_ok 0 Scenario.always_200 0
                (fun _ => true) (fun _ => true) []))
  = Raise AssertionError.
Proof.
  destruct (upload_nested_key_asserts "abc123" "m3u8" []
              (World [S3Key "abc123.m3u8/low/abc123.m3u8" 0%Z "public-read"]
                     [] (timedelta_hours 2) Scenario.always_ok 0 Scenario.always_200 0
                     (fun _ => true) (fun _ => true) [])
              (S3Key "abc123.m3u8/low/abc123.m3u8" 0%Z "public-read") [])
    as (evs & H & _).
  - reflexivity.
  - intros f [].
  - reflexivity.
  - reflexivity.
  - reflexivity.
  - by rewrite H.
Defined.

(** ** The migration and the inventory *)

Lemma legacy_shaped_id (youtube_id : string) (key : s3key) :
  legacy_shaped youtube_id key = true ->
  nonempty_all is_word_or_dash youtube_id = true
  /\ classify_legacy_key (name key) = Some (youtube_id, legacy_relative_path key).
Proof.
  unfold legacy_shaped, legacy_relative_path. intros H.
  assert (classify_legacy_key (name key)
          = Some (youtube_id,
                  match re_match re_legacy_video_key_name (name key) with
                  | Some m => group m 2
                  | None => ""
                  end)) as Hk.
  { unfold classify_legacy_key.
    destruct (re_match re_legacy_video_key_name (name key)) as [m|]; [| done].
    apply String.eqb_eq in H. by rewrite H. }
  split; [| done]. by apply classify_legacy_key_sound in Hk as [? _].
Qed.

(** X17. The name that the migration gives to a legacy-shaped key is a
    current key of the same video in the format mp4, whose path is the
    relative path of the legacy key; it is not a legacy key, so the
    inventory of a listing that holds it has mp4 for the video. *)
Theorem migrated_key_is_current (youtube_id : string) (key : s3key) :
  legacy_shaped youtube_id key = true ->
  classify_video_key (new_location youtube_id key)
  = Some (youtube_id, "mp4", legacy_relative_path key)
  /\ is_legacy_key (new_location youtube_id key) = false
  /\ (forall listing,
        new_location youtube_id key ∈ listing ->
        "mp4" ∈ default ∅ (fst (list_converted_formats listing) !! youtube_id)).
Proof.
  intros [Hid _]%legacy_shaped_id.
  assert (classify_video_key (new_location youtube_id key)
          = Some (youtube_id, "mp4", legacy_relative_path key)) as Hk.
  { change (new_location youtube_id key)
      with (video_key_name youtube_id "mp4" (legacy_relative_path key)).
    by apply classify_video_key_complete. }
  split; [done |]. split.
  - unfold is_legacy_key.
    destruct (patterns_exclusive (new_location youtube_id key)) as [H | ->]; [| done].
    unfold classify_video_key in Hk. by rewrite H in Hk.
  - intros listing Hin.
    destruct (list_converted_formats_inventory listing) as (Hfmt & _). cbv zeta in Hfmt.
    apply Hfmt. by exists (new_location youtube_id key), (legacy_relative_path key).
Qed.

Lemma migrated_key_is_current_witness :
  classify_video_key
    (new_location "DK1lCc9b7bg" (S3Key "DK1lCc9b7bg/DK1lCc9b7bg.png" 0%Z "private"))
  = Some ("DK1lCc9b7bg", "mp4", "DK1lCc9b7bg.png").
Proof.
  apply (migrated_key_is_current "DK1lCc9b7bg"
           (S3Key "DK1lCc9b7bg/DK1lCc9b7bg.png" 0%Z "private")).
  reflexivity.
Defined.

Lemma filter_store_key (prefix : string) (copy : s3key) (b : list s3key) :
  Str.startswith prefix (name copy) = false ->
  List.filter (fun k => Str.startswith prefix (name k)) (store_key copy b)
  = List.filter (fun k => Str.startswith prefix (name k)) b.
Proof.
  intros Hcopy. unfold store_key. rewrite List.filter_app. cbn [List.filter].
  rewrite Hcopy, app_nil_r.
  induction b as [|k b IH]; [done |]. cbn [List.filter].
  destruct (String.eqb (name k) (name copy)) eqn:E; cbn [negb List.filter].
  - apply String.eqb_eq in E. by rewrite E, Hcopy.
  - by rewrite IH.
Qed.

Lemma filter_store_copies (now : datetime) (youtube_id : string) (keys : list s3key) :
  forall b : list s3key,
  List.filter (fun k => Str.startswith (youtube_id +:+ "/") (name k))
              (store_copies now youtube_id keys b)
  = List.filter (fun k => Str.startswith (youtube_id +:+ "/") (name k)) b.
Proof.
  induction keys as [|key keys IH]; intros b; [done |].
  change (store_copies now youtube_id (key :: keys) b)
    with (store_copies now youtube_id keys (store_key (copied_key now youtube_id key) b)).
  rewrite IH. apply filter_store_key. apply new_location_not_legacy.
Qed.

(** X18. A migration that ends normally leaves the listing under the
    legacy prefix as it was: its copies land elsewhere and it removes
    nothing.  Run again, it ends normally again and issues the same copies. *)
Theorem migration_keeps_legacy_listing (youtube_id : string) (w : world) :
  let prefix := youtube_id +:+ "/" in
  let keys := List.filter (fun k => Str.startswith prefix (name k)) (converted w) in
  let w' := snd (copy_legacy_content_to_new_location youtube_id w) in
  forallb (legacy_shaped youtube_id) keys = true ->
  List.filter (fun k => Str.startswith prefix (name k)) (converted w') = keys
  /\ fst (copy_legacy_content_to_new_location youtube_id w') = Normal tt
  /\ trace (snd (copy_legacy_content_to_new_location youtube_id w'))
     = trace w' ++ ListKeys prefix :: flat_map (copy_events youtube_id) keys.
Proof.
  cbv zeta. intros Hall.
  rewrite (copy_legacy_unfold youtube_id w).
  rewrite copy_legacy_keys_all by done.
  cbn [snd]. set (w' := extend _ _).
  assert (List.filter (fun k => Str.startswith (youtube_id +:+ "/") (name k)) (converted w')
          = List.filter (fun k => Str.startswith (youtube_id +:+ "/") (name k)) (converted w))
    as Hsame.
  { subst w'. cbn [converted extend set_converted emit]. apply filter_store_copies. }
  split; [done |].
  rewrite (copy_legacy_unfold youtube_id w'), Hsame.
  rewrite copy_legacy_keys_all by done.
  split; [done |]. cbn [snd trace extend set_converted emit].
  by rewrite <- app_assoc.
Qed.

Lemma migration_keeps_legacy_listing_witness :
  List.filter (fun k => Str.startswith "DK1lCc9b7bg/" (name k))
    (converted (snd (copy_legacy_content_to_new_location "DK1lCc9b7bg" Scenario.legacy)))
  = [S3Key "DK1lCc9b7bg/DK1lCc9b7bg.mp4" 0%Z "public-read";
     S3Key "DK1lCc9b7bg/DK1lCc9b7bg.png" 0%Z "private"].
Proof.
  destruct (migration_keeps_legacy_listing "DK1lCc9b7bg" Scenario.legacy) as [H _].
  - reflexivity.
  - exact H.
Defined.

(** X19. An id that is empty or holds a character outside [[\w-]] cannot
    be migrated: if any key lies under its prefix, the first one fails the
    assertions and nothing is copied. *)
Theorem migration_of_invalid_id (youtube_id : string) (w : world)
    (key : s3key) (rest : list s3key) :
  nonempty_all is_word_or_dash youtube_id = false ->
  List.filter (fun k => Str.startswith (youtube_id +:+ "/") (name k)) (converted w)
  = key :: rest ->
  copy_legacy_content_to_new_location youtube_id w
  = (Raise AssertionError, emit (ListKeys (youtube_id +:+ "/")) w).
Proof.
  intros Hid Hkeys. rewrite copy_legacy_unfold, Hkeys, copy_legacy_keys_step.
  destruct (legacy_shaped youtube_id key) eqn:E; [| done].
  apply legacy_shaped_id in E as [E _]. congruence.
Qed.

Lemma migration_of_invalid_id_witness :
  fst (copy_legacy_content_to_new_location "DK1lCc9b7bg.m3u8" Scenario.legacy)
  = Raise AssertionError.
Proof.
  rewrite (migration_of_invalid_id "DK1lCc9b7bg.m3u8" Scenario.legacy
             (S3Key "DK1lCc9b7bg.m3u8/DK1lCc9b7bg.m3u8" 0%Z "public-read") []);
    reflexivity.
Defined.

(** ** The unconverted source of a video *)

Module UnconvertedFacts.
Import Unconverted.

Example splitext_mp4 : splitext "/tmp/DK1lCc9b7bg.mp4" = ("/tmp/DK1lCc9b7bg", ".mp4").
Proof. reflexivity. Qed.

Example splitext_hidden : splitext "/tmp.d/.hidden" = ("/tmp.d/.hidden", "").
Proof. reflexivity. Qed.

Example splitext_two_dots : splitext "a.tar.gz" = ("a.tar", ".gz").
Proof. reflexivity. Qed.

Lemma rfind_from_absent (c : ascii) (s : string) :
  forall i last, Str.contains c s = false -> rfind_from c s i last = last.
Proof.
  induction s as [|a s IH]; intros i last H; [done |].
  simpl in *. rewrite Ascii.eqb_sym in H.
  destruct (Ascii.eqb a c); [done |]. by apply IH.
Qed.

Lemma rfind_from_lower (c : ascii) (s : string) :
  forall i last, (last < i)%Z -> (last <= rfind_from c s i last)%Z.
Proof.
  induction s as [|a s IH]; intros i last H; simpl; [lia |].
  destruct (Ascii.eqb a c).
  - specialize (IH (i + 1)%Z i). lia.
  - apply IH. lia.
Qed.

Lemma rfind_from_get (c : ascii) (s : string) :
  forall i last,
  (last < i)%Z ->
  rfind_from c s i last = last
  \/ ((i <= rfind_from c s i last)%Z
      /\ String.get (Z.to_nat (rfind_from c s i last - i)) s = Some c).
Proof.
  induction s as [|a s IH]; intros i last H; simpl; [by left |].
  destruct (Ascii.eqb a c) eqn:E.
  - apply Ascii.eqb_eq in E as ->. right.
    destruct (IH (i + 1)%Z i ltac:(lia)) as [-> | [Hle Hget]].
    + split; [lia |]. by rewrite Z.sub_diag.
    + split; [lia |].
      replace (Z.to_nat (rfind_from c s (i + 1) i - i))
        with (S (Z.to_nat (rfind_from c s (i + 1) i - (i + 1)))) by lia.
      done.
  - destruct (IH (i + 1)%Z last ltac:(lia)) as [-> | [Hle Hget]]; [by left |].
    right. split; [lia |].
    replace (Z.to_nat (rfind_from c s (i + 1) last - i))
      with (S (Z.to_nat (rfind_from c s (i + 1) last - (i + 1)))) by lia.
    done.
Qed.

Lemma drop_get (n : nat) (s : string) (c : ascii) :
  String.get n s = Some c -> exists t, Str.drop n s = String c t.
Proof.
  revert s. induction n as [|n IH]; intros [|a s] H; simpl in *; try done.
  - injection H as ->. by eexists.
  - by apply IH.
Qed.

(** An extension is empty or starts with the dot. *)
Lemma splitext_extension (p : string) :
  snd (splitext p) = "" \/ exists e, snd (splitext p) = String "." e.
Proof.
  unfold splitext.
  pose proof (rfind_from_lower "/" p 0 (-1) ltac:(lia)) as Hsep.
  fold (rfind "/" p) in Hsep.
  destruct (rfind "." p >? rfind "/" p)%Z eqn:E; [| by left].
  apply Z.gtb_lt in E.
  destruct (rfind_from_get "." p 0 (-1) ltac:(lia)) as [Hno | [_ Hget]];
    fold (rfind "." p) in *; [lia |].
  rewrite Z.sub_0_r in Hget.
  apply drop_get in Hget as [t Ht].
  generalize (Z.to_nat (rfind "." p - (rfind "/" p + 1))) (Z.to_nat (rfind "/" p + 1)).
  intros turns. induction turns as [|turns IH]; intros filenameIndex; simpl; [by left |].
  destruct (String.get filenameIndex p) as [c|]; [| by left].
  destruct (Ascii.eqb c "."); [apply IH |].
  right. simpl. by exists t.
Qed.

Lemma splitext_no_dot (p : string) :
  Str.contains "." p = false -> splitext p = (p, "").
Proof.
  intros H.
  assert (rfind "." p = (-1)%Z) as Hdot by (unfold rfind; by apply rfind_from_absent).
  unfold splitext. rewrite Hdot.
  pose proof (rfind_from_lower "/" p 0 (-1) ltac:(lia)) as Hsep.
  fold (rfind "/" p) in Hsep.
  destruct (-1 >? rfind "/" p)%Z eqn:E; [| done].
  apply Z.gtb_lt in E. lia.
Qed.

Lemma store_name_fresh (n : string) (b : list string) :
  ~ In n b -> store_name n b = b ++ [n].
Proof.
  intros Hn. unfold store_name. f_equal.
  induction b as [|a b IH]; [done |]. cbn [List.filter].
  destruct (String.eqb a n) eqn:E.
  - apply String.eqb_eq in E as ->. destruct Hn. by left.
  - cbn [negb]. f_equal. apply IH. intros H. apply Hn. by right.
Qed.

Lemma filter_nil_not_in (f : string -> bool) (b : list string) (n : string) :
  List.filter f b = [] -> f n = true -> ~ In n b.
Proof.
  intros Hnil Hf Hin.
  assert (In n (List.filter f b)) as H by (by apply filter_In).
  by rewrite Hnil in H.
Qed.

(** X20. When no key lies under the prefix of the id and the download
    gives a path whose extension is a dot and [ext], the function puts the
    file under id/id.ext, removes it from the disk and returns the url of
    that key; the bucket gains that key and nothing else.  Called again, it
    finds the key, downloads nothing and returns the same url. *)
Theorem create_then_reuse (youtube_id : string) (w : world) (video_path ext : string) :
  let key_name := youtube_id +:+ "/" +:+ youtube_id +:+ "." +:+ ext in
  let res := get_or_create_unconverted_source_url youtube_id w in
  List.filter (Str.startswith youtube_id) (unconverted w) = [] ->
  download w youtube_id = Downloaded video_path ->
  video_path <> "" ->
  snd (splitext video_path) = String "." ext ->
  put_ok w key_name = true ->
  fst res = Url (url_of key_name)
  /\ (forall n, In n (unconverted (snd res)) <-> In n (unconverted w) \/ n = key_name)
  /\ files (snd res) = List.filter (fun f => negb (String.eqb f video_path)) (files w)
  /\ get_or_create_unconverted_source_url youtube_id (snd res)
     = (Url (url_of key_name), emit (ListKeys youtube_id) (snd res)).
Proof.
  cbv zeta. intros Hnone Hdl Hpath Hext Hput.
  set (key_name := youtube_id +:+ "/" +:+ youtube_id +:+ "." +:+ ext) in *.
  assert (Str.startswith youtube_id key_name = true) as Hpre
    by apply startswith_append.
  assert (~ In key_name (unconverted w)) as Hfresh
    by (by apply (filter_nil_not_in (Str.startswith youtube_id))).
  assert (get_or_create_unconverted_source_url youtube_id w
          = (Url (url_of key_name),
             World (unconverted w ++ [key_name])
                   (List.filter (fun f => negb (String.eqb f video_path)) (files w))
                   (download w) (put_ok w)
                   (trace (snd (get_or_create_unconverted_source_url youtube_id w)))))
    as Hres.
  { unfold get_or_create_unconverted_source_url.
    cbn [unconverted emit]. rewrite Hnone.
    unfold create_unconverted_source. cbn [download emit]. rewrite Hdl.
    destruct video_path as [|c path]; [done |].
    rewrite Hext. rewrite Ascii.eqb_refl. cbn [negb].
    fold key_name. cbn [put_ok emit unconverted files download trace].
    destruct (negb _); cbn [put_ok emit unconverted files download trace];
      rewrite Hput; cbn [fst snd unconverted files download put_ok emit trace];
      rewrite (store_name_fresh _ _ Hfresh);
      cbn [List.filter]; rewrite String.eqb_refl; cbn [negb]; reflexivity. }
  rewrite Hres. cbn [fst snd unconverted files].
  split; [done |].
  split; [intros n; rewrite in_app_iff; cbn [In]; intuition congruence |].
  split; [done |].
  unfold get_or_create_unconverted_source_url at 1.
  cbn [unconverted emit]. rewrite List.filter_app, Hnone. cbn [List.filter app].
  by rewrite Hpre.
Qed.

Lemma create_then_reuse_witness :
  fst (get_or_create_unconverted_source_url "DK1lCc9b7bg" (World ["Dpo_-GrMpNE/Dpo_-GrMpNE.flv"] []
           (fun _ => Downloaded "/tmp/DK1lCc9b7bg.mp4") (fun _ => true) []))
  = Url "s3://KA-youtube-unconverted/DK1lCc9b7bg/DK1lCc9b7bg.mp4".
Proof.
  apply (create_then_reuse "DK1lCc9b7bg" (World ["Dpo_-GrMpNE/Dpo_-GrMpNE.flv"] []
           (fun _ => Downloaded "/tmp/DK1lCc9b7bg.mp4") (fun _ => true) []) "/tmp/DK1lCc9b7bg.mp4" "mp4");
    try reflexivity.
  discriminate.
Defined.

(** X21. When no key lies under the prefix and the downloaded path has no
    dot, the function raises IndexError at the subscript of the empty
    extension: nothing is put in the bucket, and the downloaded file stays
    on the disk. *)
Theorem no_extension_raises_index_error (youtube_id : string) (w : world)
    (video_path : string) :
  let res := get_or_create_unconverted_source_url youtube_id w in
  List.filter (Str.startswith youtube_id) (unconverted w) = [] ->
  download w youtube_id = Downloaded video_path ->
  video_path <> "" ->
  Str.contains "." video_path = false ->
  fst res = Failed IndexError
  /\ unconverted (snd res) = unconverted w
  /\ files (snd res) = video_path :: files w.
Proof.
  cbv zeta. intros Hnone Hdl Hpath Hdot.
  unfold get_or_create_unconverted_source_url.
  cbn [unconverted emit]. rewrite Hnone.
  unfold create_unconverted_source. cbn [download emit]. rewrite Hdl.
  destruct video_path as [|c path]; [done |].
  by rewrite (splitext_no_dot _ Hdot).
Qed.

Lemma no_extension_raises_index_error_witness :
  fst (get_or_create_unconverted_source_url "DK1lCc9b7bg"
         (World [] [] (fun _ => Downloaded "/tmp/DK1lCc9b7bg") (fun _ => true) []))
  = Failed IndexError.
Proof.
  apply (no_extension_raises_index_error "DK1lCc9b7bg"
           (World [] [] (fun _ => Downloaded "/tmp/DK1lCc9b7bg") (fun _ => true) [])
           "/tmp/DK1lCc9b7bg"); try reflexivity.
  discriminate.
Defined.

(** X22. The function fails an assertion exactly when no key lies under
    the prefix and the download gives no path or an empty one: the
    assertion that an extension starts with a dot cannot fail, since
    [splitext] gives an extension that is empty or starts with the dot. *)
Theorem assertion_fails_only_without_path (youtube_id : string) (w : world) :
  fst (get_or_create_unconverted_source_url youtube_id w) = Failed AssertionFailed
  <-> List.filter (Str.startswith youtube_id) (unconverted w) = []
      /\ (download w youtube_id = DownloadedNothing
          \/ download w youtube_id = Downloaded "").
Proof.
  unfold get_or_create_unconverted_source_url. cbn [unconverted emit].
  destruct (List.filter (Str.startswith youtube_id) (unconverted w)) as [|key more].
  2: { split; [done | by intros [? _]]. }
  unfold create_unconverted_source. cbn [download emit].
  destruct (download w youtube_id) as [video_path | |].
  - destruct video_path as [|c path].
    + split; [by intros _; split; [| right] | done].
    + split; [| by intros [_ [? | ?]]].
      destruct (splitext_extension (String c path)) as [-> | [e ->]]; [done |].
      rewrite Ascii.eqb_refl. cbn [negb].
      match goal with |- context [if put_ok ?w' ?k then _ else _] =>
        destruct (put_ok w' k) end; done.
  - split; [by intros _; split; [| left] | done].
  - split; [done | by intros [_ [? | ?]]].
Qed.

End UnconvertedFacts.
